(** * Journal-to-HowWeFeel importer: a shallow embedding of
      [import_journal_to_howwefeel.py] and the properties of its pipeline.

    Python [str] values are sequences of Unicode code points; they are
    modelled as [list N].  Functions of the Python runtime whose behaviour
    is a table of the Unicode database or of the platform ([str.lower],
    [str.isspace], [html.unescape], [strptime], ...) are the fields of the
    class [PyRuntime]; the general theorems hold for every runtime, and the
    instance [latin1] (exact on code points below 256) is used to evaluate
    the program on concrete pages. *)

From Stdlib Require Import ZArith NArith Ascii String List.
From stdpp Require Import base decidable option list gmap sorting.

Local Open Scope N_scope.
Local Set Warnings "-register-all".

(** ** Strings *)

Definition char := N.
Definition str := list N.

Fixpoint bytes_of (s : string) : list N :=
  match s with
  | EmptyString => []
  | String a s' => N_of_ascii a :: bytes_of s'
  end.

(** Code points of a UTF-8 encoded literal of this file. *)
Fixpoint utf8_points (bs : list N) : str :=
  match bs with
  | [] => []
  | b0 :: r0 =>
    if b0 <? 192 then b0 :: utf8_points r0 else
    match r0 with
    | [] => [b0]
    | b1 :: r1 =>
      if b0 <? 224 then ((b0 mod 32) * 64 + b1 mod 64) :: utf8_points r1 else
      match r1 with
      | [] => [b0; b1]
      | b2 :: r2 =>
        if b0 <? 240
        then ((b0 mod 16) * 4096 + (b1 mod 64) * 64 + b2 mod 64) :: utf8_points r2
        else match r2 with
             | [] => [b0; b1; b2]
             | b3 :: r3 =>
               ((b0 mod 8) * 262144 + (b1 mod 64) * 4096 + (b2 mod 64) * 64 + b3 mod 64)
                 :: utf8_points r3
             end
      end
    end
  end.

Definition u8 (s : string) : str := utf8_points (bytes_of s).

Definition str_eqb (a b : str) : bool := bool_decide (a = b).

(** [x in l] on a Python list. *)
Definition str_in (x : str) (l : list str) : bool := bool_decide (x ∈ l).

(** Truth value of a list or string: non-empty. *)
Definition nonempty_list {A} (l : list A) : bool :=
  match l with [] => false | _ => true end.

(** [sep.join(parts)] *)
Fixpoint join (sep : str) (parts : list str) : str :=
  match parts with
  | [] => []
  | [p] => p
  | p :: rest => p ++ sep ++ join sep rest
  end.

(** [s.split(sep)] for a one-character separator. *)
Fixpoint split_chr (sep : char) (s : str) : list str :=
  match s with
  | [] => [[]]
  | c :: s' =>
    if c =? sep then [] :: split_chr sep s'
    else match split_chr sep s' with
         | [] => [[c]]
         | p :: ps => (c :: p) :: ps
         end
  end.

(** [s.startswith(p)] and [s.endswith(p)] *)
Fixpoint startswith (s p : str) : bool :=
  match p, s with
  | [], _ => true
  | _ :: _, [] => false
  | a :: p', c :: s' => (a =? c) && startswith s' p'
  end.

Definition endswith (s p : str) : bool := startswith (rev s) (rev p).

(** [s.replace(a, b)] for a one-character [a]. *)
Definition replace_chr (a : char) (b : str) (s : str) : str :=
  concat (map (fun c => if c =? a then b else [c]) s).

(** Lexicographic order of code points: [<=] on [str]. *)
Fixpoint str_leb (a b : str) : bool :=
  match a, b with
  | [], _ => true
  | _ :: _, [] => false
  | x :: a', y :: b' => if x <? y then true else if y <? x then false else str_leb a' b'
  end.

Fixpoint insert_sorted {A} (key : A -> str) (x : A) (l : list A) : list A :=
  match l with
  | [] => [x]
  | y :: l' => if str_leb (key x) (key y) then x :: y :: l' else y :: insert_sorted key x l'
  end.

(** [sorted(l, key=key)] on elements with pairwise distinct keys. *)
Definition sorted_by {A} (key : A -> str) (l : list A) : list A :=
  foldr (insert_sorted key) [] l.

Definition sorted (l : list str) : list str := sorted_by id l.

(** [str(n)] for a non-negative integer. *)
Fixpoint digits_fuel (fuel : nat) (n : N) (acc : str) : str :=
  match fuel with
  | O => acc
  | S f =>
    let acc' := (48 + n mod 10) :: acc in
    if n <? 10 then acc' else digits_fuel f (n / 10) acc'
  end.

Definition str_of_N (n : N) : str := digits_fuel (S (N.to_nat (N.log2 n))) n [].

Definition str_of_Z (z : Z) : str :=
  match z with
  | Zneg p => 45 :: str_of_N (Npos p)
  | _ => str_of_N (Z.to_N z)
  end.

(** Left zero padding to two digits, as [%I] and [%M] print. *)
Definition two_digits (n : N) : str :=
  if n <? 10 then 48 :: str_of_N n else str_of_N n.

(** ** Exceptions and results *)

Inductive exn :=
| ValueError | TypeError | AttributeError
| URLError | HTTPError | JSONDecodeError
| UnicodeDecodeError | TimeoutError | RemoteDisconnected | IncompleteRead.

(** The value a call returns, or the exception it raises. *)
Inductive py (A : Type) :=
| Ok (a : A)
| Raise (e : exn).
Arguments Ok {A} a.
Arguments Raise {A} e.

Definition py_map {A B} (f : A -> B) (x : py A) : py B :=
  match x with Ok a => Ok (f a) | Raise e => Raise e end.

(** [d.get(k)] on a dict given by its items. *)
Fixpoint dict_get {V} (k : str) (d : list (str * V)) : option V :=
  match d with
  | (k', v) :: d' => if str_eqb k k' then Some v else dict_get k d'
  | [] => None
  end.

(** ** Calendar dates ([datetime.date]) *)

Record date := mk_date { year : N; month : N; day : N }.

Definition is_leap (y : N) : bool :=
  (y mod 4 =? 0) && (negb (y mod 100 =? 0) || (y mod 400 =? 0)).

Definition days_in_month (y mo : N) : N :=
  if mo =? 2 then (if is_leap y then 29 else 28)
  else if (mo =? 4) || (mo =? 6) || (mo =? 9) || (mo =? 11) then 30 else 31.

(** [dt.date(year, month, day)]: [ValueError] outside the calendar. *)
Definition dt_date (y mo d : N) : py date :=
  if (1 <=? y) && (y <=? 9999) && (1 <=? mo) && (mo <=? 12)
     && (1 <=? d) && (d <=? days_in_month y mo)
  then Ok (mk_date y mo d) else Raise ValueError.

Definition days_before_year (y : N) : N :=
  let p := y - 1 in p * 365 + p / 4 - p / 100 + p / 400.

Definition days_before_month (y mo : N) : N :=
  foldr N.add 0 (map (fun i => days_in_month y (N.of_nat i)) (seq 1 (N.to_nat mo - 1))).

Definition toordinal (d : date) : N :=
  days_before_year (year d) + days_before_month (year d) (month d) + day d.

(** [d.weekday()]: Monday is 0. *)
Definition weekday (d : date) : N := (toordinal d + 6) mod 7.

Definition PORTUGUESE_MONTHS : list (str * N) :=
  [ (u8 "janeiro", 1); (u8 "fevereiro", 2); (u8 "março", 3); (u8 "marco", 3);
    (u8 "abril", 4); (u8 "maio", 5); (u8 "junho", 6); (u8 "julho", 7);
    (u8 "agosto", 8); (u8 "setembro", 9); (u8 "outubro", 10);
    (u8 "novembro", 11); (u8 "dezembro", 12) ].

Definition WEEKDAYS_EN : list str :=
  [u8 "Mon"; u8 "Tue"; u8 "Wed"; u8 "Thu"; u8 "Fri"; u8 "Sat"; u8 "Sun"].

(** [%b] in the C locale. *)
Definition MONTHS_ABBR : list str :=
  [u8 "Jan"; u8 "Feb"; u8 "Mar"; u8 "Apr"; u8 "May"; u8 "Jun";
   u8 "Jul"; u8 "Aug"; u8 "Sep"; u8 "Oct"; u8 "Nov"; u8 "Dec"].

(** ** The Python runtime *)

Class PyRuntime := {
  (** [str.isspace] on one code point; also the class [\s] of [re]. *)
  isspace : char -> bool;
  (** [str.isalnum] on one code point; [\w] of [re] is this or [_]. *)
  isalnum : char -> bool;
  (** value of a decimal digit ([\d] of [re], digits read by [int]). *)
  decimal : char -> option N;
  (** [str.lower] *)
  lower : str -> str;
  (** equality of a pattern character and a text character under
      [re.IGNORECASE]. *)
  ci_eq : char -> char -> bool;
  (** [html.unescape] *)
  html_unescape : str -> str;
  (** [datetime.strptime(s, "%I:%M %p").time()] as (hour, minute);
      [None] when it raises [ValueError]. *)
  strptime_IMp : str -> option (N * N);
  (** the platform's [%Y] of [strftime]. *)
  strftime_Y : N -> str
}.

Section Runtime.
Context `{PyRuntime}.

Definition is_digit (c : char) : bool := bool_decide (is_Some (decimal c)).

(** [int(s)] on a string of decimal digits. *)
Definition int_of (s : str) : N :=
  foldl (fun acc c => acc * 10 + default 0 (decimal c)) 0 s.

Fixpoint lstrip (s : str) : str :=
  match s with
  | c :: s' => if isspace c then lstrip s' else s
  | [] => []
  end.

(** [s.strip()] *)
Definition strip (s : str) : str := rev (lstrip (rev (lstrip s))).

(** ** Regular expressions

    The fragment of [re] the program uses, matched by backtracking in the
    order of [re]: alternatives left to right, repetitions greedy. *)

Inductive re :=
| Eps
| Chr (p : char -> bool)                           (* one character: literal, class, \d, \s *)
| Seq (a b : re)
| Alt (a b : re)
| Rep (p : char -> bool) (lo : nat) (hi : option nat) (* p{lo,hi}, greedy *)
| Bnd                                              (* \b *)
| Behind (p : char -> bool)                        (* (?<=[...]) *)
| Grp (i : nat) (r : re).                          (* capturing group number i *)

Definition is_word (c : option char) : bool :=
  match c with
  | Some c => isalnum c || (c =? 95)
  | None => false
  end.

Definition caps := list (nat * str).

Definition orelse {A} (x y : option A) : option A :=
  match x with Some _ => x | None => y end.

Definition more (hi : option nat) : bool :=
  match hi with Some O => false | _ => true end.

Fixpoint rep {A} (p : char -> bool) (lo : nat) (hi : option nat)
    (prev : option char) (s : str) (k : option char -> str -> option A) : option A :=
  let stop := match lo with O => k prev s | S _ => None end in
  match s with
  | c :: s' =>
    if p c && more hi
    then orelse (rep p (Nat.pred lo) (Nat.pred <$> hi) (Some c) s' k) stop
    else stop
  | [] => stop
  end.

(** [m r prev s cs k]: match [r] at the front of [s], the character before
    being [prev], then continue with [k]. *)
Fixpoint m {A} (r : re) (prev : option char) (s : str) (cs : caps)
    (k : option char -> str -> caps -> option A) : option A :=
  match r with
  | Eps => k prev s cs
  | Chr p =>
    match s with
    | c :: s' => if p c then k (Some c) s' cs else None
    | [] => None
    end
  | Seq a b => m a prev s cs (fun prev' s' cs' => m b prev' s' cs' k)
  | Alt a b => orelse (m a prev s cs k) (m b prev s cs k)
  | Rep p lo hi => rep p lo hi prev s (fun prev' s' => k prev' s' cs)
  | Bnd => if xorb (is_word prev) (is_word (head s)) then k prev s cs else None
  | Behind p =>
    match prev with
    | Some c => if p c then k prev s cs else None
    | None => None
    end
  | Grp i r' =>
    m r' prev s cs (fun prev' s' cs' =>
      k prev' s' ((i, take (length s - length s') s) :: cs'))
  end.

(** A match starting exactly here: the text left after it and the groups. *)
Definition re_match (r : re) (prev : option char) (s : str) : option (str * caps) :=
  m r prev s [] (fun _ s' cs => Some (s', cs)).

(** [re.search]: the leftmost match. *)
Fixpoint search_from (r : re) (prev : option char) (s : str) : option caps :=
  match re_match r prev s with
  | Some (_, cs) => Some cs
  | None =>
    match s with
    | c :: s' => search_from r (Some c) s'
    | [] => None
    end
  end.

Definition re_search (r : re) (s : str) : option caps := search_from r None s.

Definition found (r : re) (s : str) : bool := bool_decide (is_Some (re_search r s)).

(** [match.group(i)] *)
Fixpoint group (i : nat) (cs : caps) : str :=
  match cs with
  | (j, g) :: cs' => if Nat.eqb i j then g else group i cs'
  | [] => []
  end.

(** [re.sub(r, repl, s)] and [re.split(r, s)].  Every pattern they are
    called with consumes at least one character, so the rule of [re] for
    empty matches is not needed; [skip] counts the characters of the match
    in progress. *)
Fixpoint sub_from (r : re) (repl : str) (prev : option char) (s : str) (skip : nat) : str :=
  match s with
  | [] => []
  | c :: s' =>
    match skip with
    | S n => sub_from r repl (Some c) s' n
    | O =>
      match re_match r prev s with
      | Some (rest, _) =>
        match (length s - length rest)%nat with
        | S n => repl ++ sub_from r repl (Some c) s' n
        | O => c :: sub_from r repl (Some c) s' O
        end
      | None => c :: sub_from r repl (Some c) s' O
      end
    end
  end.

Definition re_sub (r : re) (repl s : str) : str := sub_from r repl None s O.

Fixpoint split_from (r : re) (prev : option char) (s : str) (skip : nat) (cur : str)
    : list str :=
  match s with
  | [] => [cur]
  | c :: s' =>
    match skip with
    | S n => split_from r (Some c) s' n cur
    | O =>
      match re_match r prev s with
      | Some (rest, _) =>
        match (length s - length rest)%nat with
        | S n => cur :: split_from r (Some c) s' n []
        | O => split_from r (Some c) s' O (cur ++ [c])
        end
      | None => split_from r (Some c) s' O (cur ++ [c])
      end
    end
  end.

Definition re_split (r : re) (s : str) : list str := split_from r None s O [].

(** Pattern builders. *)
Definition chr (c : char) : re := Chr (N.eqb c).
Definition lit (s : str) : re := foldr (fun c r => Seq (chr c) r) Eps s.
Definition lit_i (s : str) : re := foldr (fun c r => Seq (Chr (ci_eq c)) r) Eps s.
Definition one_of (s : str) : char -> bool := fun c => bool_decide (c ∈ s).
Fixpoint alts (rs : list re) : re :=
  match rs with
  | [] => Chr (fun _ => false)
  | [r] => r
  | r :: rs' => Alt r (alts rs')
  end.

(** [\b(w1|w2|...)\b] *)
Definition words (ws : list re) : re := Seq Bnd (Seq (Grp 1 (alts ws)) Bnd).

(** ** Dates of page headers *)

(** [(\d{1,2}) de ([a-zçã]+) de (\d{4})] *)
Definition date_re : re :=
  Seq (Grp 1 (Rep is_digit 1 (Some 2%nat)))
 (Seq (lit (u8 " de "))
 (Seq (Grp 2 (Rep (fun c => ((97 <=? c) && (c <=? 122)) || one_of (u8 "çã") c) 1 None))
 (Seq (lit (u8 " de "))
      (Grp 3 (Rep is_digit 4 (Some 4%nat)))))).

Definition parse_date_from_header (header_text : str) : py (option date) :=
  let header_text := lower (strip header_text) in
  match re_search date_re header_text with
  | None => Ok None
  | Some mt =>
    let day := int_of (group 1 mt) in
    let month_name := replace_chr 231 (u8 "c") (group 2 mt) in
    match dict_get month_name PORTUGUESE_MONTHS with
    | None => Ok None
    | Some month =>
      if month =? 0 then Ok None else
      let year := int_of (group 3 mt) in
      py_map Some (dt_date year month day)
    end
  end.

(** [%I]: the hour on the 12-hour clock. *)
Definition hour12 (h : N) : N := if h mod 12 =? 0 then 12 else h mod 12.

Definition format_date_for_csv (date_obj : date) (time_str : str) : py str :=
  let time_str := strip time_str in
  match strptime_IMp time_str with
  | None => Raise ValueError
  | Some (hh, mm) =>
    let weekday := nth (N.to_nat (weekday date_obj)) WEEKDAYS_EN [] in
    Ok (strftime_Y (year date_obj) ++ u8 " " ++ weekday ++ u8 " "
        ++ nth (N.to_nat (month date_obj) - 1) MONTHS_ABBR [] ++ u8 " "
        ++ str_of_N (day date_obj) ++ u8 " "
        ++ two_digits (hour12 hh) ++ u8 ":" ++ two_digits mm ++ u8 " "
        ++ (if hh <? 12 then u8 "AM" else u8 "PM"))
  end.

(** ** Text normalisation, sentences and the takeaway *)

Definition spaces : re := Rep isspace 1 None.

Definition normalize_text (text : str) : str :=
  strip (re_sub spaces (u8 " ") text).

(** [re.split(r"(?<=[.!?])\s+", text)], pieces stripped, empty ones dropped *)
Definition split_sentences (text : str) : list str :=
  let parts := re_split (Seq (Behind (one_of (u8 ".!?"))) spaces) text in
  map strip (filter (fun p => Is_true (nonempty_list (strip p))) parts).

(** [\b(quero|pretendo|vou|preciso|devo|decidi|planejo)\b], [re.IGNORECASE] *)
Definition intention_re : re :=
  words (map lit_i [u8 "quero"; u8 "pretendo"; u8 "vou"; u8 "preciso";
                    u8 "devo"; u8 "decidi"; u8 "planejo"]).

Fixpoint first_intention (sentences : list str) : str :=
  match sentences with
  | s :: rest => if found intention_re s then s else first_intention rest
  | [] => []
  end.

Definition extract_takeaway (text : str) : str :=
  first_intention (split_sentences text).

(** ** The heuristic mood classifier *)

(** The seven patterns of [choose_mood] with their ranked candidates, in
    the order of the [if re.search(...): mood_preferences.append([...])]
    statements. *)
Definition ao : re := Seq (Chr (one_of (u8 "aã"))) (lit (u8 "o")).   (* [aã]o *)

Definition rule_anxiety : re * list str :=
  (words (map lit [u8 "ansios"; u8 "ansiedade"; u8 "preocupad"; u8 "nervos"]),
   [u8 "Anxious"; u8 "Concerned"; u8 "Uneasy"]).
Definition rule_crisis : re * list str :=
  (words (map lit [u8 "depress"; u8 "morrer"; u8 "suicid"; u8 "hopeless"]
          ++ [Seq (lit (u8 "sem raz")) ao]),
   [u8 "Depressed"; u8 "Hopeless"; u8 "Miserable"; u8 "Down"]).
Definition rule_exhaustion : re * list str :=
  (words (map lit [u8 "cansad"; u8 "exaust"; u8 "fatig"]),
   [u8 "Exhausted"; u8 "Tired"; u8 "Fatigued"]).
Definition rule_trapped : re * list str :=
  (words [lit (u8 "preso"); Seq (lit (u8 "pris")) ao; lit (u8 "trancad")],
   [u8 "Trapped"]).
Definition rule_frustration : re * list str :=
  (words (map lit [u8 "frustr"; u8 "raiva"; u8 "irrit"; u8 "culpa"; u8 "vergonh"]),
   [u8 "Frustrated"; u8 "Peeved"; u8 "Guilty"; u8 "Ashamed"]).
Definition rule_motivation : re * list str :=
  (words (map lit [u8 "inspir"; u8 "motivad"; u8 "orgulh"; u8 "confian"]),
   [u8 "Inspired"; u8 "Motivated"; u8 "Proud"]).
Definition rule_gratitude : re * list str :=
  (words (map lit [u8 "grat"; u8 "feliz"; u8 "bem"; u8 "esperan"; u8 "otimi"]),
   [u8 "Grateful"; u8 "Hopeful"; u8 "Optimistic"; u8 "Good"; u8 "Content"]).

(** [if re.search(pattern, text_l): mood_preferences.append(candidates)] *)
Definition append_if (text_l : str) (rule : re * list str) (mood_preferences : list (list str))
    : list (list str) :=
  if found (fst rule) text_l then mood_preferences ++ [snd rule] else mood_preferences.

Definition mood_preferences (text_l : str) : list (list str) :=
  let mp := [] in
  let mp := append_if text_l rule_anxiety mp in
  let mp := append_if text_l rule_crisis mp in
  let mp := append_if text_l rule_exhaustion mp in
  let mp := append_if text_l rule_trapped mp in
  let mp := append_if text_l rule_frustration mp in
  let mp := append_if text_l rule_motivation mp in
  let mp := append_if text_l rule_gratitude mp in
  mp.

(** [for mood in prefs: if mood in mood_pool and mood not in chosen:
    chosen.append(mood); break] *)
Fixpoint scan_prefs (prefs : list str) (mood_pool : gset str) (chosen : list str)
    : list str :=
  match prefs with
  | mood :: rest =>
    if bool_decide (mood ∈ mood_pool) && negb (str_in mood chosen)
    then chosen ++ [mood]
    else scan_prefs rest mood_pool chosen
  | [] => chosen
  end.

(** [for prefs in mood_preferences: ...; if len(chosen) >= 2: break] *)
Fixpoint scan_categories (prefss : list (list str)) (mood_pool : gset str)
    (chosen : list str) : list str :=
  match prefss with
  | prefs :: rest =>
    let chosen := scan_prefs prefs mood_pool chosen in
    if (2 <=? length chosen)%nat then chosen
    else scan_categories rest mood_pool chosen
  | [] => chosen
  end.

Definition FALLBACKS : list str :=
  [u8 "Thoughtful"; u8 "Mellow"; u8 "Calm"; u8 "Neutral"; u8 "Meh"; u8 "Balanced"].

Fixpoint scan_fallbacks (fallbacks : list str) (mood_pool : gset str) (chosen : list str)
    : list str :=
  match fallbacks with
  | fallback :: rest =>
    if bool_decide (fallback ∈ mood_pool) then [fallback]
    else scan_fallbacks rest mood_pool chosen
  | [] => chosen
  end.

(** The list [chosen] when [choose_mood] returns. *)
Definition choose_mood_chosen (text : str) (mood_pool : gset str) (allow_fallback : bool)
    : list str :=
  let text_l := lower text in
  let chosen := scan_categories (mood_preferences text_l) mood_pool [] in
  if allow_fallback && negb (nonempty_list chosen)
  then scan_fallbacks FALLBACKS mood_pool chosen
  else chosen.

Definition choose_mood (text : str) (mood_pool : gset str) (allow_fallback : bool) : str :=
  let chosen := choose_mood_chosen text mood_pool allow_fallback in
  if nonempty_list chosen then join (u8 ";") chosen else [].

(** ** The markup parser ([JournalHTMLParser])

    [HTMLParser.feed] tokenises the page and calls the three handlers; the
    page is given here as the sequence of those calls. *)

Inductive event :=
| StartTag (tag : str) (attrs : list (str * option str))
| EndTag (tag : str)
| Data (data : str).

Record JournalHTMLParser := mk_parser {
  in_body : bool;
  in_page_header : bool;
  in_title : bool;
  text_parts : list str;
  page_header : str;
  title : str;
  _stack : list str
}.

Definition parser_init : JournalHTMLParser :=
  mk_parser false false false [] [] [] [].

(** [{k: v for k, v in attrs}.get(name)]: the last binding wins. *)
Definition attr_get (name : str) (attrs : list (str * option str)) : option (option str) :=
  dict_get name (rev attrs).

Definition has_class (cls : str) (attrs : list (str * option str)) : bool :=
  bool_decide (attr_get (u8 "class") attrs = Some (Some cls)).

Definition handle_starttag (self : JournalHTMLParser) (tag : str)
    (attrs : list (str * option str)) : JournalHTMLParser :=
  let in_body' := if str_eqb tag (u8 "body") then true else in_body self in
  if negb in_body' then self else
  let is_div := str_eqb tag (u8 "div") in
  let in_page_header' :=
    if is_div && has_class (u8 "pageHeader") attrs then true else in_page_header self in
  let in_title' :=
    if is_div && has_class (u8 "title") attrs then true else in_title self in
  let text_parts' :=
    if str_in tag [u8 "p"; u8 "li"; u8 "br"]
    then text_parts self ++ [[10]] else text_parts self in
  mk_parser in_body' in_page_header' in_title' text_parts'
            (page_header self) (title self) (_stack self ++ [tag]).

Definition handle_endtag (self : JournalHTMLParser) (tag : str) : JournalHTMLParser :=
  let in_body' := if str_eqb tag (u8 "body") then false else in_body self in
  let is_div := str_eqb tag (u8 "div") in
  let in_page_header' :=
    if is_div then (if in_page_header self then false else in_page_header self)
    else in_page_header self in
  let in_title' :=
    if is_div then (if in_title self then false else in_title self)
    else in_title self in
  let stack' := if nonempty_list (_stack self) then removelast (_stack self)
                else _stack self in
  mk_parser in_body' in_page_header' in_title' (text_parts self)
            (page_header self) (title self) stack'.

Definition handle_data (self : JournalHTMLParser) (data : str) : JournalHTMLParser :=
  if negb (in_body self) then self else
  let text := html_unescape data in
  if in_page_header self then
    mk_parser (in_body self) (in_page_header self) (in_title self) (text_parts self)
              (page_header self ++ text) (title self) (_stack self)
  else if in_title self then
    mk_parser (in_body self) (in_page_header self) (in_title self) (text_parts self)
              (page_header self) (title self ++ text) (_stack self)
  else
    mk_parser (in_body self) (in_page_header self) (in_title self)
              (text_parts self ++ [text])
              (page_header self) (title self) (_stack self).

Definition handle (self : JournalHTMLParser) (e : event) : JournalHTMLParser :=
  match e with
  | StartTag tag attrs => handle_starttag self tag attrs
  | EndTag tag => handle_endtag self tag
  | Data data => handle_data self data
  end.

Definition feed (self : JournalHTMLParser) (content : list event) : JournalHTMLParser :=
  foldl handle self content.

(** [\s*•\s*] *)
Definition bullet_re : re :=
  Seq (Rep isspace 0 None) (Seq (chr 8226) (Rep isspace 0 None)).

(** [process_html_file] on the tokens of the file at [path]. *)
Definition process_html_file (content : list event) : py (option date * str * str) :=
  let parser := feed parser_init content in
  let body_text := join (u8 " ") (text_parts parser) in
  let body_text := re_sub bullet_re (u8 " - ") body_text in
  let body_text := normalize_text body_text in
  let title := normalize_text (title parser) in
  match parse_date_from_header (page_header parser) with
  | Raise e => Raise e
  | Ok date_obj => Ok (date_obj, title, body_text)
  end.

(** ** The remote mood classifier ([llm_choose_mood])

    The network is the one effect of the pipeline.  A program either
    returns, raises, or issues [urllib.request.urlopen(req, timeout=...)]
    and continues with what the [try] block of [llm_choose_mood] yields:
    the decoded JSON value, or the exception raised while opening, reading,
    decoding or parsing. *)

Inductive json :=
| JNull
| JBool (b : bool)
| JNum (literal : str)
| JStr (s : str)
| JArr (items : list json)
| JObj (items : list (str * json)).       (* the dict, keys distinct *)

Record request := mk_request {
  req_url : str;
  req_payload : json;                      (* before [json.dumps(...).encode] *)
  req_headers : list (str * str);
  req_method : str;
  req_timeout : N
}.

Inductive response :=
| Fails (e : exn)
| Loads (data : json).

Inductive prog (A : Type) :=
| Ret (a : A)
| Throw (e : exn)
| Urlopen (req : request) (k : response -> prog A).
Arguments Ret {A} a.
Arguments Throw {A} e.
Arguments Urlopen {A} req k.

Fixpoint bind {A B} (p : prog A) (f : A -> prog B) : prog B :=
  match p with
  | Ret a => f a
  | Throw e => Throw e
  | Urlopen req k => Urlopen req (fun resp => bind (k resp) f)
  end.

Definition lift {A} (x : py A) : prog A :=
  match x with Ok a => Ret a | Raise e => Throw e end.

(** Running a program against a network: [net n req] answers the [n]-th
    request.  The result comes with the requests issued, in order. *)
Fixpoint run {A} (net : nat -> request -> response) (p : prog A) (sent : list request)
    : py A * list request :=
  match p with
  | Ret a => (Ok a, sent)
  | Throw e => (Raise e, sent)
  | Urlopen req k => run net (k (net (length sent) req)) (sent ++ [req])
  end.

(** [d.get(k, dflt)]: [AttributeError] unless [d] is a dict. *)
Definition py_get (d : json) (k : str) (dflt : json) : py json :=
  match d with
  | JObj items => Ok (default dflt (dict_get k items))
  | _ => Raise AttributeError
  end.

(** The values [for x in v] goes through: [TypeError] unless [v] is
    iterable. *)
Definition py_iter (v : json) : py (list json) :=
  match v with
  | JArr items => Ok items
  | JStr s => Ok (map (fun c => JStr [c]) s)
  | JObj items => Ok (map (fun kv => JStr (fst kv)) items)
  | _ => Raise TypeError
  end.

Definition is_str (v : json) (s : str) : bool :=
  match v with JStr s' => str_eqb s' s | _ => false end.

(** [for content in item.get("content", []): ...] *)
Fixpoint scan_contents (contents : list json) (raw_text : str) : py str :=
  match contents with
  | [] => Ok raw_text
  | content :: rest =>
    match py_get content (u8 "type") JNull with
    | Raise e => Raise e
    | Ok ty =>
      if is_str ty (u8 "output_text") then
        match py_get content (u8 "text") (JStr []) with
        | Raise e => Raise e
        | Ok (JStr text) => scan_contents rest (raw_text ++ text)
        | Ok _ => Raise TypeError
        end
      else scan_contents rest raw_text
    end
  end.

(** [for item in data.get("output", []): ...] *)
Fixpoint scan_output (output : list json) (raw_text : str) : py str :=
  match output with
  | [] => Ok raw_text
  | item :: rest =>
    match py_get item (u8 "type") JNull with
    | Raise e => Raise e
    | Ok ty =>
      if is_str ty (u8 "message") then
        match py_get item (u8 "content") (JArr []) with
        | Raise e => Raise e
        | Ok v =>
          match py_iter v with
          | Raise e => Raise e
          | Ok contents =>
            match scan_contents contents raw_text with
            | Raise e => Raise e
            | Ok raw_text => scan_output rest raw_text
            end
          end
        end
      else scan_output rest raw_text
    end
  end.

Definition output_text (data : json) : py str :=
  match py_get data (u8 "output") (JArr []) with
  | Raise e => Raise e
  | Ok v =>
    match py_iter v with
    | Raise e => Raise e
    | Ok output => scan_output output []
    end
  end.

(** [{m.lower(): m for m in moods_sorted}] *)
Definition lower_map (moods_sorted : list str) : gmap str str :=
  foldl (fun d mood => <[lower mood := mood]> d) ∅ moods_sorted.

(** [for part in raw_text.split(";"): ...] *)
Fixpoint scan_parts (parts : list str) (moods_lower_map : gmap str str) (max_moods : Z)
    (chosen : list str) : list str :=
  match parts with
  | [] => chosen
  | part :: rest =>
    let mood := strip part in
    if negb (nonempty_list mood) then scan_parts rest moods_lower_map max_moods chosen else
    let chosen :=
      match moods_lower_map !! lower mood with
      | Some normalized =>
        if nonempty_list normalized && negb (str_in normalized chosen)
        then chosen ++ [normalized] else chosen
      | None => chosen
      end in
    if (max_moods <=? Z.of_nat (length chosen))%Z then chosen
    else scan_parts rest moods_lower_map max_moods chosen
  end.

(** [except (urllib.error.URLError, urllib.error.HTTPError,
    json.JSONDecodeError)] *)
Definition caught (e : exn) : bool :=
  match e with
  | URLError | HTTPError | JSONDecodeError => true
  | _ => false
  end.

Definition llm_prompt (max_moods : Z) (moods_sorted : list str) (snippet : str) : str :=
  u8 "Escolha até " ++ str_of_Z max_moods
  ++ u8 " moods da lista e responda APENAS com os nomes separados por ';'. Se nenhum servir, responda vazio."
  ++ [10; 10] ++ u8 "Lista de moods:" ++ [10] ++ join (u8 ", ") moods_sorted
  ++ [10; 10] ++ u8 "Texto:" ++ [10] ++ snippet ++ [10].

Definition llm_request (model api_key prompt : str) : request :=
  let payload :=
    JObj [ (u8 "model", JStr model);
           (u8 "input",
            JArr [ JObj [ (u8 "role", JStr (u8 "user"));
                          (u8 "content",
                           JArr [ JObj [ (u8 "type", JStr (u8 "input_text"));
                                         (u8 "text", JStr prompt) ] ]) ] ]);
           (u8 "temperature", JNum (u8 "0.2"));
           (u8 "max_output_tokens", JNum (u8 "50")) ] in
  mk_request (u8 "https://api.openai.com/v1/responses") payload
    [ (u8 "Content-Type", u8 "application/json");
      (u8 "Authorization", u8 "Bearer " ++ api_key) ]
    (u8 "POST") 30.

(** The labels [chosen] from the text of the answer. *)
Definition llm_chosen (raw_text : str) (existing_moods : gset str) (max_moods : Z)
    : list str :=
  let moods_sorted := sorted (elements existing_moods) in
  scan_parts (split_chr 59 raw_text) (lower_map moods_sorted) max_moods [].

(** [llm_choose_mood]; the [debug] printing is left out. *)
Definition llm_choose_mood (text : str) (existing_moods : gset str) (model api_key : str)
    (max_moods : Z) : prog str :=
  if negb (nonempty_list api_key) then Ret [] else
  if bool_decide (existing_moods = ∅) then Ret [] else
  let moods_sorted := sorted (elements existing_moods) in
  let snippet := take 2000 text in
  let prompt := llm_prompt max_moods moods_sorted snippet in
  Urlopen (llm_request model api_key prompt) (fun resp =>
    match resp with
    | Fails e => if caught e then Ret [] else Throw e
    | Loads data =>
      match output_text data with
      | Raise e => Throw e
      | Ok raw_text =>
        let raw_text := strip raw_text in
        if negb (nonempty_list raw_text) then Ret [] else
        Ret (join (u8 ";") (llm_chosen raw_text existing_moods max_moods))
      end
    end).

(** ** The mood pool and the record store *)

(** [load_moods_file]: the lines of the file, [None] when it is missing or
    unreadable. *)
Definition load_moods_file (lines : option (list str)) : list str :=
  match lines with
  | None => []
  | Some lines =>
    filter (fun line => Is_true (nonempty_list line && negb (startswith line (u8 "#"))))
           (map strip lines)
  end.

Definition row := list str.

(** The rows [csv.reader] yields, [None] when the file does not exist. *)
Definition store := option (list row).

Definition stripped_parts (field : str) : list str :=
  filter (fun mood => Is_true (nonempty_list mood)) (map strip (split_chr 59 field)).

Definition row_moods (r : row) : list str :=
  match r with
  | _ :: mood_field :: _ =>
    let mood_field := strip mood_field in
    if negb (nonempty_list mood_field) then [] else stripped_parts mood_field
  | _ => []
  end.

Definition data_rows (csv : store) : list row :=
  match csv with
  | Some (headers :: rows) => if nonempty_list headers then rows else []
  | _ => []
  end.

Definition load_existing_moods (csv : store) : gset str :=
  list_to_set (concat (map row_moods (data_rows csv))).

Definition build_mood_pool (existing_moods : gset str) (extra_moods : list str) : gset str :=
  let pool := existing_moods in
  if nonempty_list extra_moods
  then foldl (fun pool mood => pool ∪ {[ mood ]}) pool extra_moods
  else pool.

Definition key := (str * str * str)%type.

Definition row_key (r : row) : list key :=
  match r with
  | [] => []
  | date_str :: _ =>
    let date_str := strip date_str in
    let notes := strip (nth 15 r []) in
    let reflections := strip (nth 16 r []) in
    [(take 10 date_str, take 40 notes, take 40 reflections)]
  end.

Definition parse_existing_keys (csv : store) : gset key :=
  list_to_set (concat (map row_key (data_rows csv))).

Definition build_row (date_str mood notes reflections takeaways : str) : row :=
  [ date_str; mood;
    []; []; []; []; []; []; []; []; []; []; []; []; [];
    notes; reflections; takeaways ].

(** ** The run ([main]) *)

Record args := mk_args {
  time : str;            (* --time *)
  dry_run : bool;        (* --dry-run *)
  force : bool;          (* --force *)
  llm_model : str;       (* --llm-model *)
  llm_off : bool         (* --llm-off *)
}.

(** What the run reads from outside: the record store at [--csv], the
    lines of [--moods-file], the credential in the environment after
    [load_env], and the directory [--entries] as the names [os.listdir]
    gives with the tokens of each file. *)
Record world := mk_world {
  csv : store;
  moods_file : option (list str);
  OPENAI_API_KEY : str;
  entries : list (str * list event)
}.

(** [title if title else (split_sentences(body)[0] if split_sentences(body)
    else body)] *)
Definition notes_of (title body : str) : str :=
  if nonempty_list title then title
  else match split_sentences body with s :: _ => s | [] => body end.

(** The body of the [for filename ...] loop after the test of the file
    extension: [None] for [continue], [Some r] for [new_rows.append(r)]. *)
Definition process_entry (a : args) (mood_pool : gset str) (existing_keys : gset key)
    (api_key : str) (content : list event) : prog (option row) :=
  bind (lift (process_html_file content)) (fun '(date_obj, title, body) =>
  match date_obj with
  | None => Ret None
  | Some date_obj =>
    if negb (nonempty_list body) then Ret None else
    bind (lift (format_date_for_csv date_obj (time a))) (fun date_str =>
    let notes := notes_of title body in
    let reflections := body in
    let takeaways := extract_takeaway body in
    let text := title ++ u8 " " ++ body in
    let mood := choose_mood text mood_pool (llm_off a) in
    bind (if negb (nonempty_list mood) && negb (llm_off a)
          then llm_choose_mood text mood_pool (llm_model a) api_key 2
          else Ret mood) (fun mood =>
    let key := (take 10 date_str, take 40 notes, take 40 reflections) in
    if negb (force a) && bool_decide (key ∈ existing_keys) then Ret None
    else Ret (Some (build_row date_str mood notes reflections takeaways))))
  end).

Fixpoint main_loop (a : args) (mood_pool : gset str) (existing_keys : gset key)
    (api_key : str) (files : list (str * list event)) (new_rows : list row)
    : prog (list row) :=
  match files with
  | [] => Ret new_rows
  | (filename, content) :: rest =>
    if negb (endswith filename (u8 ".html"))
    then main_loop a mood_pool existing_keys api_key rest new_rows
    else
      bind (process_entry a mood_pool existing_keys api_key content) (fun r =>
      match r with
      | None => main_loop a mood_pool existing_keys api_key rest new_rows
      | Some r => main_loop a mood_pool existing_keys api_key rest (new_rows ++ [r])
      end)
  end.

Inductive outcome :=
| NoMoods                         (* "Não encontrei moods existentes no CSV." *)
| DryRun (n : nat)                (* "Novas linhas: n" *)
| NoCsv                           (* "CSV não encontrado." *)
| Appended (new_rows : list row). (* rows written to the store *)

Definition main (a : args) (w : world) : prog outcome :=
  let existing_moods := load_existing_moods (csv w) in
  if bool_decide (existing_moods = ∅) then Ret NoMoods else
  let extra_moods := load_moods_file (moods_file w) in
  let mood_pool := build_mood_pool existing_moods extra_moods in
  let existing_keys := parse_existing_keys (csv w) in
  let api_key := strip (OPENAI_API_KEY w) in
  bind (main_loop a mood_pool existing_keys api_key (sorted_by fst (entries w)) [])
    (fun new_rows =>
  if dry_run a then Ret (DryRun (length new_rows)) else
  if negb (bool_decide (is_Some (csv w))) then Ret NoCsv else
  Ret (Appended new_rows)).

(** ** Notions of the statements *)

(** A list of labels within the cap, without repetition, all in the pool. *)
Definition labels_ok (mood_pool : gset str) (chosen : list str) : Prop :=
  (length chosen <= 2)%nat /\ NoDup chosen /\ forall mood, mood ∈ chosen -> mood ∈ mood_pool.

(** The same of a result string: it is the [;]-join of such a list. *)
Definition result_ok (mood_pool : gset str) (result : str) : Prop :=
  exists chosen, result = join (u8 ";") chosen /\ labels_ok mood_pool chosen.

Definition good (mood_pool : gset str) (chosen : list str) : Prop :=
  NoDup chosen /\ forall mood, mood ∈ chosen -> mood ∈ mood_pool.

(** The candidates of the five categories other than crisis and
    gratitude. *)
Definition other_labels : list str :=
  snd rule_anxiety ++ snd rule_exhaustion ++ snd rule_trapped
  ++ snd rule_frustration ++ snd rule_motivation.

(** The dedup key [main] computes for the row it builds: the first 10
    characters of field 0 and the first 40 of fields 15 and 16. *)
Definition main_key (r : row) : key :=
  (take 10 (nth 0 r []), take 40 (nth 15 r []), take 40 (nth 16 r [])).

(** The dedup key of a page when it reaches the check of [main]: the page
    has a date and a body and the date formats. *)
Definition entry_key (a : args) (content : list event) : option key :=
  match process_html_file content with
  | Ok (Some date_obj, title, body) =>
    if negb (nonempty_list body) then None else
    match format_date_for_csv date_obj (time a) with
    | Ok date_str => Some (take 10 date_str, take 40 (notes_of title body), take 40 body)
    | Raise _ => None
    end
  | _ => None
  end.

Definition file_key (a : args) (file : str * list event) : option key :=
  if endswith (fst file) (u8 ".html") then entry_key a (snd file) else None.

(** The keys of a list that are not in the key set. *)
Definition absent_from (existing_keys : gset key) (keys : list key) : list key :=
  filter (fun k => k ∉ existing_keys) keys.

(** The characters of a text that are not whitespace. *)
Definition visible (s : list N) : list N := filter (fun c : N => isspace c = false) s.

(** Each run of whitespace replaced by [repl], written directly: [in_run]
    tells that the run the text starts in has been replaced already. *)
Fixpoint collapse (repl : str) (in_run : bool) (s : str) : str :=
  match s with
  | [] => []
  | c :: s' =>
    if isspace c
    then (if in_run then collapse repl true s' else repl ++ collapse repl true s')
    else c :: collapse repl false s'
  end.

(** A text in the form [normalize_text] gives: no whitespace at either
    end, no whitespace character but the space, no two of them in a row. *)
Definition tidy (s : str) : Prop :=
  (forall c, head s = Some c -> isspace c = false)
  /\ (forall c, last s = Some c -> isspace c = false)
  /\ Forall (fun c => isspace c = true -> c = 32) s
  /\ forall l1 c d l2, s = l1 ++ c :: d :: l2 -> isspace c = true -> isspace d = false.

(** No two whitespace characters in a row; [after] tells that the
    character before the text is whitespace. *)
Fixpoint spaced (after : bool) (s : str) : bool :=
  match s with
  | [] => true
  | c :: s' => if isspace c then negb after && spaced true s' else spaced false s'
  end.

(** The length of the run of whitespace a text starts with. *)
Definition run_length (s : str) : nat := length s - length (lstrip s).

(** The pattern of [split_sentences]: [(?<=[.!?])\s+]. *)
Definition sentence_break : re := Seq (Behind (one_of (u8 ".!?"))) spaces.

(** A text that ends with [.], [!] or [?]. *)
Definition ends_sentence (s : str) : Prop :=
  exists c, last s = Some c /\ c ∈ u8 ".!?".

(** A [<body ...>] start tag. *)
Definition opens_body (e : event) : bool :=
  match e with
  | StartTag tag _ => str_eqb tag (u8 "body")
  | _ => false
  end.

(** A token that is neither of a [div] nor of the [body]. *)
Definition inline (e : event) : bool :=
  match e with
  | StartTag tag _ | EndTag tag => negb (str_in tag [u8 "div"; u8 "body"])
  | Data _ => true
  end.

(** The text of the data tokens, unescaped, in order. *)
Definition texts (events : list event) : str :=
  concat (omap (fun e => match e with Data data => Some (html_unescape data) | _ => None end)
               events).

(** The body fragments tokens give: a newline for each [p], [li] and [br]
    start tag and, when [capture] is set, the text of each data token. *)
Definition fragments (capture : bool) (events : list event) : list str :=
  concat (map (fun e =>
                 match e with
                 | StartTag tag _ =>
                   if str_in tag [u8 "p"; u8 "li"; u8 "br"] then [[10]] else []
                 | EndTag _ => []
                 | Data data => if capture then [html_unescape data] else []
                 end) events).


(** The class [[a-zçã]] of the date pattern. *)
Definition month_letter (c : char) : bool :=
  ((97 <=? c) && (c <=? 122)) || one_of (u8 "çã") c.

(** The decimal digits of [n] as [str_of_N] writes them are read back by
    [int_of], and their number is right. *)
Definition digits_ok (n : N) : bool :=
  let s := str_of_N n in
  forallb is_digit s && (int_of s =? n)
  && (1 <=? length s)%nat
  && ((n <? 100) && (length s <=? 2)%nat || negb (n <? 100))
  && ((1000 <=? n) && (length s =? 4)%nat || negb (1000 <=? n)).

(** A month name of the table is matched whole by the pattern and found
    in the table with its number. *)
Definition month_ok (entry : str * N) : bool :=
  let '(name, mo) := entry in
  forallb month_letter name && (1 <=? length name)%nat
  && str_eqb (lower name) name
  && bool_decide (dict_get (replace_chr 231 (u8 "c") name) PORTUGUESE_MONTHS = Some mo)
  && (1 <=? mo) && (mo <=? 12).

(** The date as the header writes it. *)
Definition written_date (d : N) (name : str) (y : N) : str :=
  str_of_N d ++ u8 " de " ++ name ++ u8 " de " ++ str_of_N y.


(** The seven rules in their order, and every label the heuristic tier can
    name. *)
Definition mood_rules : list (re * list str) :=
  [rule_anxiety; rule_crisis; rule_exhaustion; rule_trapped; rule_frustration;
   rule_motivation; rule_gratitude].

Definition vocabulary : list str := concat (map snd mood_rules) ++ FALLBACKS.

(** A label as the store holds it: not empty, without [;], without
    whitespace at its ends. *)
Definition clean_label (m : str) : Prop := m <> [] /\ (59 ∉ m) /\ strip m = m.


(** A row as [main] builds it from a page of the directory: the 18 fields
    of the layout, a mood field within the pool, notes and reflections not
    empty and stripped, the takeaway of the reflections, and the key of
    one of the files. *)
Definition from_page (a : args) (mood_pool : gset str) (files : list (str * list event))
    (r : row) : Prop :=
  length r = 18%nat
  /\ result_ok mood_pool (nth 1 r [])
  /\ (forall i, (2 <= i < 15)%nat -> nth i r [] = [])
  /\ nth 15 r [] <> [] /\ strip (nth 15 r []) = nth 15 r []
  /\ nth 16 r [] <> [] /\ strip (nth 16 r []) = nth 16 r []
  /\ nth 17 r [] = extract_takeaway (nth 16 r [])
  /\ exists file, file ∈ files /\ file_key a file = Some (main_key r).


(** ** The environment file ([load_env])

    [os.environ] is a map from names to values, threaded through the
    calls.  A path is given by what reading it yields: [None] when it does
    not exist or cannot be opened, otherwise the lines read before the
    file ends or an [OSError] stops the reading (the [except OSError]
    moves on to the next path and keeps what was set). *)

(** [s.lstrip(chars)] and [s.strip(chars)] *)
Fixpoint lstrip_chars (chars s : str) : str :=
  match s with
  | c :: s' => if one_of chars c then lstrip_chars chars s' else s
  | [] => []
  end.

Definition strip_chars (chars s : str) : str :=
  rev (lstrip_chars chars (rev (lstrip_chars chars s))).

(** [s.split(sep, 1)] for a one-character [sep] *)
Fixpoint split_once (sep : char) (s : str) : list str :=
  match s with
  | [] => [[]]
  | c :: s' =>
    if c =? sep then [[]; s']
    else match split_once sep s' with
         | p :: ps => (c :: p) :: ps
         | [] => [[c]]
         end
  end.

(** [os.environ[key] = value]: [ValueError] for an empty name, a name with
    [=] and an embedded null character. *)
Definition setenv (env : gmap str str) (key value : str) : py (gmap str str) :=
  if negb (nonempty_list key) || one_of key 61 || one_of key 0 || one_of value 0
  then Raise ValueError
  else Ok (<[key := value]> env).

(** The body of [for line in f]. *)
Definition load_env_line (env : gmap str str) (line : str) : py (gmap str str) :=
  let line := strip line in
  let line := if startswith line [65279] then lstrip_chars [65279] line else line in
  if negb (nonempty_list line) || startswith line (u8 "#") || negb (one_of line 61)
  then Ok env else
  let line := if startswith line (u8 "export ") then strip (drop 7 line) else line in
  match split_once 61 line with
  | [key; value] =>
    let key := strip key in
    let value := strip_chars [39] (strip_chars [34] (strip value)) in
    if negb (nonempty_list key) then Ok env else
    if str_eqb (strip (default ([] : str) (env !! key))) [] then setenv env key value
    else Ok env
  | _ => Raise ValueError
  end.

Fixpoint load_env_lines (env : gmap str str) (lines : list str) : py (gmap str str) :=
  match lines with
  | [] => Ok env
  | line :: rest =>
    match load_env_line env line with
    | Ok env => load_env_lines env rest
    | Raise e => Raise e
    end
  end.

Fixpoint load_env (paths : list (option (list str))) (env : gmap str str) : py (gmap str str) :=
  match paths with
  | [] => Ok env
  | None :: rest => load_env rest env
  | Some lines :: rest =>
    match load_env_lines env lines with
    | Ok env => load_env rest env
    | Raise e => Raise e
    end
  end.

(** A variable that counts as set: [os.environ.get(key, '').strip()] is
    not empty. *)
Definition is_set (env : gmap str str) (key : str) : Prop :=
  strip (default ([] : str) (env !! key)) <> [].

(** A name and a value that an assignment line holds as they are. *)
Definition plain_name (key : str) : Prop :=
  key <> [] /\ strip key = key /\ (61 ∉ key) /\ (0 ∉ key)
  /\ startswith key (u8 "#") = false /\ startswith key [65279] = false
  /\ startswith key (u8 "export ") = false.

Definition plain_value (value : str) : Prop :=
  value <> [] /\ strip value = value /\ (0 ∉ value)
  /\ strip_chars [34] value = value /\ strip_chars [39] value = value.


End Runtime.

Arguments Ret {A} a.
Arguments Throw {A} e.
Arguments Urlopen {A} req k.

(** ** A concrete runtime, exact on code points below 256 *)

Definition in_range (lo hi c : N) : bool := (lo <=? c) && (c <=? hi).

Definition latin1_isspace (c : char) : bool :=
  in_range 9 13 c || in_range 28 32 c || (c =? 133) || (c =? 160) || (c =? 5760)
  || in_range 8192 8202 c || (c =? 8232) || (c =? 8233) || (c =? 8239) || (c =? 8287)
  || (c =? 12288).

Definition latin1_isalnum (c : char) : bool :=
  in_range 48 57 c || in_range 65 90 c || in_range 97 122 c
  || bool_decide (c ∈ [170; 178; 179; 181; 185; 186; 188; 189; 190])
  || in_range 192 214 c || in_range 216 246 c || in_range 248 255 c.

Definition latin1_decimal (c : char) : option N :=
  if in_range 48 57 c then Some (c - 48) else None.

Definition latin1_lower1 (c : char) : char :=
  if in_range 65 90 c || (in_range 192 222 c && negb (c =? 215)) then c + 32 else c.

Definition latin1_base : PyRuntime := {|
  isspace := latin1_isspace;
  isalnum := latin1_isalnum;
  decimal := latin1_decimal;
  lower := map latin1_lower1;
  ci_eq := fun a b => latin1_lower1 a =? latin1_lower1 b;
  html_unescape := fun s => s;
  strptime_IMp := fun _ => None;
  strftime_Y := str_of_N
|}.

(** The pattern [_strptime] compiles ["%I:%M %p"] to, with [re.IGNORECASE]:
    [(1[0-2]|0[1-9]|[1-9]):([0-5]\d|\d)\s+(am|pm)]; the whole string has to
    match.  Midnight is 12 AM. *)
Definition latin1_strptime (s : str) : option (N * N) :=
  let R := latin1_base in
  let d := Chr is_digit in
  let pat :=
    Seq (Grp 1 (alts [Seq (chr 49) (Chr (in_range 48 50));
                      Seq (chr 48) (Chr (in_range 49 57));
                      Chr (in_range 49 57)]))
   (Seq (chr 58)
   (Seq (Grp 2 (Alt (Seq (Chr (in_range 48 53)) d) d))
   (Seq spaces
        (Grp 3 (Alt (lit_i (u8 "am")) (lit_i (u8 "pm"))))))) in
  match re_match pat None s with
  | Some ([], mt) =>
    let hh := int_of (group 1 mt) in
    let pm := str_eqb (lower (group 3 mt)) (u8 "pm") in
    Some (if pm then (if hh =? 12 then 12 else hh + 12) else (if hh =? 12 then 0 else hh),
          int_of (group 2 mt))
  | _ => None
  end.

Definition latin1 : PyRuntime := {|
  isspace := latin1_isspace;
  isalnum := latin1_isalnum;
  decimal := latin1_decimal;
  lower := map latin1_lower1;
  ci_eq := fun a b => latin1_lower1 a =? latin1_lower1 b;
  html_unescape := fun s => s;
  strptime_IMp := latin1_strptime;
  strftime_Y := str_of_N
|}.

(** ** Sample inputs *)

(** A page as the journal exports it: the date in the page header, the
    text in a paragraph. *)
Definition page (header body : str) : list event :=
  [ StartTag (u8 "html") []; StartTag (u8 "body") [];
    StartTag (u8 "div") [(u8 "class", Some (u8 "pageHeader"))];
    Data header; EndTag (u8 "div");
    StartTag (u8 "p") []; Data body; EndTag (u8 "p");
    EndTag (u8 "body"); EndTag (u8 "html") ].

Definition scenario_header : str := u8 "quinta-feira, 3 de março de 2024".
Definition scenario_body : str :=
  u8 "Estou muito ansioso hoje. Quero melhorar minha rotina.".
Definition scenario_pool : gset str := {[ u8 "Anxious"; u8 "Motivated" ]}.
Definition scenario_row (mood : str) : row :=
  build_row (u8 "2024 Sun Mar 3 12:00 PM") mood (u8 "Estou muito ansioso hoje.")
            scenario_body (u8 "Quero melhorar minha rotina.").

(** Two pages with the same date and text. *)
Definition twin_files : list (str * list event) :=
  [ (u8 "a.html", page scenario_header scenario_body);
    (u8 "b.html", page scenario_header scenario_body) ].

(** The defaults of the command line, with [--llm-off] as given. *)
Definition default_args (llm_off : bool) : args :=
  mk_args (u8 "12:00 PM") false false (u8 "gpt-4o-mini") llm_off.

(** A store with one record. *)
Definition one_record_store : store :=
  Some [ [u8 "Date"; u8 "Mood"];
         build_row (u8 "2023 Sun Jan 1 12:00 PM") (u8 "Anxious;Motivated")
                   (u8 "Ano novo") (u8 "Ano novo, vida nova.") [] ].

(** A store with its header row only, and a one-line mood list. *)
Definition empty_store : store := Some [ [u8 "Date"; u8 "Mood"] ].
Definition calm_only : option (list str) := Some [u8 "Calm" ++ [10]].

(** A network that answers every request the same way. *)
Definition always (resp : response) : nat -> request -> response := fun _ _ => resp.

(** A page header, and a title, with a nested [div]. *)
Definition nested_in (cls : str) : list event :=
  [ StartTag (u8 "body") [];
    StartTag (u8 "div") [(u8 "class", Some cls)]; Data (u8 "A");
    StartTag (u8 "div") []; Data (u8 "B"); EndTag (u8 "div");
    Data (u8 "C"); EndTag (u8 "div") ].

(** The defaults of the command line with [--force] and [--llm-off]. *)
Definition forced_args : args :=
  mk_args (u8 "12:00 PM") false true (u8 "gpt-4o-mini") true.

(** The two pages with the one-record store, no mood list, no credential. *)
Definition twin_world : world := mk_world one_record_store None [] twin_files.

(** A response of the remote service with one text. *)
Definition answer (text : str) : json :=
  JObj [ (u8 "output",
          JArr [ JObj [ (u8 "type", JStr (u8 "message"));
                        (u8 "content",
                         JArr [ JObj [ (u8 "type", JStr (u8 "output_text"));
                                       (u8 "text", JStr text) ] ]) ] ]) ].

(** An environment with the credential set, and an environment file. *)
Definition credential_set : gmap str str := {[ u8 "OPENAI_API_KEY" := u8 "sk-old" ]}.
Definition env_file : list str :=
  [ u8 "# local settings" ++ [10];
    u8 "OPENAI_API_KEY=sk-new" ++ [10];
    u8 "export MODEL='x'" ++ [10] ].

(** * Properties *)

Section Properties.
Context `{PyRuntime}.

(** ** Programs *)

Lemma run_bind {A B} net (p : prog A) (f : A -> prog B) sent :
  run net (bind p f) sent =
  match run net p sent with
  | (Ok a, sent') => run net (f a) sent'
  | (Raise e, sent') => (Raise e, sent')
  end.
Proof.
  revert sent. induction p as [a | e | req k IH]; intros sent; simpl; auto.
Qed.

Lemma bind_ret_inv {A B} (p : prog A) (f : A -> prog B) (b : B) :
  bind p f = Ret b -> exists a, p = Ret a /\ f a = Ret b.
Proof. destruct p; simpl; intros Hb; try discriminate. eauto. Qed.

(** ** The record layout *)

(** C4 (as the code has it): every row of [build_row] has 18 fields:
    the date string, the mood field, 13 blank fields, then notes,
    reflections and takeaway at the 0-based positions 15, 16 and 17. *)
Theorem build_row_layout (date_str mood notes reflections takeaways : str) :
  let r := build_row date_str mood notes reflections takeaways in
  length r = 18%nat
  /\ r = [date_str; mood] ++ replicate 13 [] ++ [notes; reflections; takeaways]
  /\ r !! 0%nat = Some date_str /\ r !! 1%nat = Some mood
  /\ r !! 15%nat = Some notes /\ r !! 16%nat = Some reflections
  /\ r !! 17%nat = Some takeaways.
Proof. repeat split. Qed.

(** ** The guard of the remote classifier *)

(** C10: with an empty credential or an empty mood pool, [llm_choose_mood]
    returns the empty string at once: the program is [Ret ""], so running
    it against any network sends no request. *)
Theorem llm_choose_mood_guard (text : str) (existing_moods : gset str)
    (model api_key : str) (max_moods : Z) :
  api_key = [] \/ existing_moods = ∅ ->
  llm_choose_mood text existing_moods model api_key max_moods = Ret []
  /\ forall net sent,
       run net (llm_choose_mood text existing_moods model api_key max_moods) sent
       = (Ok [], sent).
Proof.
  intros Hguard.
  assert (Hret : llm_choose_mood text existing_moods model api_key max_moods = Ret []).
  { unfold llm_choose_mood. destruct Hguard as [-> | ->].
    - reflexivity.
    - destruct (nonempty_list api_key); simpl; [|reflexivity].
      rewrite bool_decide_eq_true_2; reflexivity. }
  split; [exact Hret|]. intros net sent. rewrite Hret. reflexivity.
Qed.

(** ** The start of the run *)

Lemma build_mood_pool_subseteq (existing_moods : gset str) (extra_moods : list str) :
  existing_moods ⊆ build_mood_pool existing_moods extra_moods.
Proof.
  unfold build_mood_pool. destruct (nonempty_list extra_moods); [|done].
  revert existing_moods. induction extra_moods as [|m l IH]; intros e; simpl; [done|].
  etrans; [|apply IH]. set_solver.
Qed.

(** C3 (as the code has it): the run stops before the loop exactly when
    the record store yields no mood label, whatever the supplementary list
    holds; a run that goes on has a non-empty pool. *)
Theorem main_halts_iff_no_existing_moods (a : args) (w : world) :
  (main a w = Ret NoMoods <-> load_existing_moods (csv w) = ∅)
  /\ (main a w <> Ret NoMoods ->
      build_mood_pool (load_existing_moods (csv w)) (load_moods_file (moods_file w)) <> ∅).
Proof.
  unfold main. case_bool_decide as Hempty.
  - split; [tauto|]. intros Hgo. congruence.
  - split.
    + split; [|tauto]. intros Hb. exfalso.
      apply bind_ret_inv in Hb as (rows & _ & Hb).
      destruct (dry_run a); [discriminate|].
      destruct (negb _); discriminate.
    + intros _ Hpool.
      pose proof (build_mood_pool_subseteq (load_existing_moods (csv w))
                    (load_moods_file (moods_file w))) as Hsub.
      rewrite Hpool in Hsub. apply Hempty.
      apply elem_of_equiv_empty_L. intros x Hx.
      apply Hsub in Hx. by apply not_elem_of_empty in Hx.
Qed.

(** ** The labels of a classification *)

Lemma good_nil mood_pool : good mood_pool [].
Proof. split; [constructor|]. intros m Hm. by apply elem_of_nil in Hm. Qed.

Lemma good_snoc mood_pool chosen mood :
  good mood_pool chosen -> mood ∈ mood_pool -> mood ∉ chosen ->
  good mood_pool (chosen ++ [mood]).
Proof.
  intros [Hnd Hin] Hm Hfresh. split.
  - apply NoDup_app. split; [done|]. split.
    + intros x Hx Hx'. apply list_elem_of_singleton in Hx'. by subst.
    + apply NoDup_singleton.
  - intros x Hx. apply elem_of_app in Hx as [Hx | Hx]; [by apply Hin|].
    apply list_elem_of_singleton in Hx. by subst.
Qed.

(** The inner loop appends at most one candidate: one of the pool that is
    not chosen yet. *)
Lemma scan_prefs_cases prefs mood_pool chosen :
  scan_prefs prefs mood_pool chosen = chosen
  \/ exists mood, mood ∈ prefs /\ mood ∈ mood_pool /\ (mood ∉ chosen)
       /\ scan_prefs prefs mood_pool chosen = chosen ++ [mood].
Proof.
  induction prefs as [|mood rest IH]; simpl; [by left|].
  unfold str_in. case_bool_decide as Hpool; simpl.
  - case_bool_decide as Hchosen; simpl.
    + destruct IH as [IH | (m & Hm & ?)]; [by left|].
      right. exists m. split; [by apply elem_of_cons; right|done].
    + right. exists mood. split; [by apply elem_of_cons; left|done].
  - destruct IH as [IH | (m & Hm & ?)]; [by left|].
    right. exists m. split; [by apply elem_of_cons; right|done].
Qed.

Lemma scan_categories_good prefss mood_pool chosen :
  good mood_pool chosen -> (length chosen <= 1)%nat ->
  good mood_pool (scan_categories prefss mood_pool chosen)
  /\ (length (scan_categories prefss mood_pool chosen) <= 2)%nat.
Proof.
  revert chosen.
  induction prefss as [|prefs rest IH]; intros chosen Hgood Hlen; cbn [scan_categories].
  - split; [done|lia].
  - destruct (scan_prefs_cases prefs mood_pool chosen)
      as [-> | (mood & _ & Hpool & Hfresh & ->)].
    + destruct (2 <=? length chosen)%nat eqn:Hcap; [split; [done|lia]|].
      by apply IH.
    + assert (Hgood' : good mood_pool (chosen ++ [mood])) by (by apply good_snoc).
      assert (Hlen' : length (chosen ++ [mood]) = S (length chosen))
        by (rewrite length_app; simpl; lia).
      destruct (2 <=? length (chosen ++ [mood]))%nat eqn:Hcap.
      * split; [done|lia].
      * apply Nat.leb_gt in Hcap. apply IH; [done|lia].
Qed.

Lemma scan_fallbacks_good fallbacks mood_pool chosen :
  labels_ok mood_pool chosen -> labels_ok mood_pool (scan_fallbacks fallbacks mood_pool chosen).
Proof.
  intros Hok. induction fallbacks as [|fallback rest IH]; simpl; [done|].
  case_bool_decide as Hpool; [|done].
  split; [simpl; lia|]. split; [apply NoDup_singleton|].
  intros m Hm. apply list_elem_of_singleton in Hm. by subst.
Qed.

Lemma choose_mood_chosen_ok text mood_pool allow_fallback :
  labels_ok mood_pool (choose_mood_chosen text mood_pool allow_fallback).
Proof.
  unfold choose_mood_chosen.
  destruct (scan_categories_good (mood_preferences (lower text)) mood_pool [])
    as [[Hnd Hin] Hlen]; [apply good_nil|simpl; lia|].
  assert (Hok : labels_ok mood_pool
                  (scan_categories (mood_preferences (lower text)) mood_pool []))
    by done.
  destruct (allow_fallback && _); [by apply scan_fallbacks_good|done].
Qed.

Lemma choose_mood_join text mood_pool allow_fallback :
  choose_mood text mood_pool allow_fallback
  = join (u8 ";") (choose_mood_chosen text mood_pool allow_fallback).
Proof.
  unfold choose_mood. by destruct (choose_mood_chosen text mood_pool allow_fallback).
Qed.

(** The remote tier. *)
Lemma insert_sorted_elem {A} (key : A -> str) (x a : A) (l : list A) :
  x ∈ insert_sorted key a l -> x = a \/ x ∈ l.
Proof.
  induction l as [|y l IH]; simpl.
  - intros Hx. apply list_elem_of_singleton in Hx. by left.
  - destruct (str_leb (key a) (key y)).
    + intros Hx. apply elem_of_cons in Hx. tauto.
    + intros Hx. apply elem_of_cons in Hx as [-> | Hx].
      * right. by apply elem_of_cons; left.
      * destruct (IH Hx) as [-> | Hl]; [by left|].
        right. by apply elem_of_cons; right.
Qed.

Lemma sorted_by_elem {A} (key : A -> str) (x : A) (l : list A) :
  x ∈ sorted_by key l -> x ∈ l.
Proof.
  unfold sorted_by. induction l as [|a l IH]; simpl; [done|].
  intros Hx. apply insert_sorted_elem in Hx as [-> | Hx].
  - by apply elem_of_cons; left.
  - apply elem_of_cons; right. by apply IH.
Qed.

Lemma lower_map_values (moods : list str) (d : gmap str str) (k v : str) :
  foldl (fun d mood => <[lower mood := mood]> d) d moods !! k = Some v ->
  d !! k = Some v \/ v ∈ moods.
Proof.
  revert d. induction moods as [|mood rest IH]; intros d; simpl; [by left|].
  intros Hk. apply IH in Hk as [Hk | Hk].
  - apply lookup_insert_Some in Hk as [[_ <-] | [_ Hk]].
    + right. by apply elem_of_cons; left.
    + by left.
  - right. by apply elem_of_cons; right.
Qed.

Lemma lower_map_pool (existing_moods : gset str) (k v : str) :
  lower_map (sorted (elements existing_moods)) !! k = Some v -> v ∈ existing_moods.
Proof.
  intros Hk. apply lower_map_values in Hk as [Hk | Hk].
  - by rewrite lookup_empty in Hk.
  - apply sorted_by_elem in Hk. by apply elem_of_elements in Hk.
Qed.

Lemma scan_parts_good (parts : list str) (d : gmap str str) mood_pool chosen :
  (forall k v, d !! k = Some v -> v ∈ mood_pool) ->
  good mood_pool chosen -> (length chosen <= 1)%nat ->
  good mood_pool (scan_parts parts d 2 chosen)
  /\ (length (scan_parts parts d 2 chosen) <= 2)%nat.
Proof.
  intros Hd. revert chosen.
  induction parts as [|part rest IH]; intros chosen Hgood Hlen; cbn [scan_parts].
  - split; [done|lia].
  - destruct (nonempty_list (strip part)); cbn [negb]; [|by apply IH].
    set (chosen' := match d !! lower (strip part) with
                    | Some normalized =>
                      if nonempty_list normalized && negb (str_in normalized chosen)
                      then chosen ++ [normalized] else chosen
                    | None => chosen
                    end).
    assert (Hc : good mood_pool chosen' /\ (length chosen' <= 2)%nat).
    { subst chosen'. destruct (d !! lower (strip part)) as [v|] eqn:Hv; [|split; [done|lia]].
      destruct (nonempty_list v); simpl; [|split; [done|lia]].
      unfold str_in. case_bool_decide as Hfresh; simpl; [split; [done|lia]|].
      split; [apply good_snoc; eauto|]. rewrite length_app; simpl; lia. }
    destruct Hc as [Hgood' Hlen'].
    destruct (2 <=? Z.of_nat (length chosen'))%Z eqn:Hcap; [done|].
    apply Z.leb_gt in Hcap. apply IH; [done|lia].
Qed.

Lemma llm_chosen_ok raw_text existing_moods :
  labels_ok existing_moods (llm_chosen raw_text existing_moods 2).
Proof.
  unfold llm_chosen.
  destruct (scan_parts_good (split_chr 59 raw_text)
              (lower_map (sorted (elements existing_moods))) existing_moods [])
    as [[Hnd Hin] Hlen]; [apply lower_map_pool|apply good_nil|simpl; lia|].
  done.
Qed.

Lemma result_ok_empty mood_pool : result_ok mood_pool [].
Proof.
  exists []. split; [done|]. split; [simpl; lia|]. split; [constructor|].
  intros m Hm. by apply elem_of_nil in Hm.
Qed.

(** C9: the result of the heuristic tier, and every result the remote
    tier returns with the cap 2, is the [;]-join of at most two labels,
    pairwise distinct and all members of the mood pool. *)
Theorem classification_labels_ok (text : str) (mood_pool : gset str)
    (allow_fallback : bool) (model api_key : str)
    (net : nat -> request -> response) (sent : list request) :
  labels_ok mood_pool (choose_mood_chosen text mood_pool allow_fallback)
  /\ result_ok mood_pool (choose_mood text mood_pool allow_fallback)
  /\ match fst (run net (llm_choose_mood text mood_pool model api_key 2) sent) with
     | Ok result => result_ok mood_pool result
     | Raise _ => True
     end.
Proof.
  split; [apply choose_mood_chosen_ok|]. split.
  - exists (choose_mood_chosen text mood_pool allow_fallback).
    split; [apply choose_mood_join|apply choose_mood_chosen_ok].
  - unfold llm_choose_mood.
    destruct (nonempty_list api_key); simpl; [|apply result_ok_empty].
    case_bool_decide; simpl; [apply result_ok_empty|].
    destruct (net _ _) as [e | data].
    + destruct (caught e); simpl; [apply result_ok_empty|done].
    + destruct (output_text data) as [raw_text | e]; simpl; [|done].
      destruct (nonempty_list (strip raw_text)); simpl; [|apply result_ok_empty].
      eexists. split; [reflexivity|apply llm_chosen_ok].
Qed.

(** ** The priority of the categories *)

Lemma other_labels_distinct (x : str) :
  x ∈ other_labels -> x <> u8 "Depressed" /\ x <> u8 "Grateful".
Proof.
  intros Hx. split; intros ->; revert Hx;
    apply (proj1 (bool_decide_eq_false _)); vm_compute; reflexivity.
Qed.

Lemma scan_prefs_head mood rest mood_pool chosen :
  mood ∈ mood_pool -> mood ∉ chosen ->
  scan_prefs (mood :: rest) mood_pool chosen = chosen ++ [mood].
Proof.
  intros Hpool Hfresh. cbn [scan_prefs]. unfold str_in.
  rewrite bool_decide_eq_true_2 by done. by rewrite bool_decide_eq_false_2 by done.
Qed.

(** With one label chosen, the categories up to a last one whose top
    candidate is available add exactly one label. *)
Lemma scan_categories_from_one (prefss : list (list str)) mood_pool d g gs :
  g ∈ mood_pool -> g <> d ->
  scan_categories (prefss ++ [g :: gs]) mood_pool [d] = [d; g]
  \/ exists x, x ∈ concat prefss /\ x ∈ mood_pool
       /\ scan_categories (prefss ++ [g :: gs]) mood_pool [d] = [d; x].
Proof.
  intros Hg Hgd. induction prefss as [|prefs rest IH]; cbn [app scan_categories].
  - left. rewrite scan_prefs_head; [done|done|].
    intros Hin. apply list_elem_of_singleton in Hin. done.
  - destruct (scan_prefs_cases prefs mood_pool [d]) as [-> | (m & Hm & Hpool & _ & ->)].
    + cbn [length Nat.leb]. destruct IH as [IH | (x & Hx & Hxp & IH)]; [by left|].
      right. exists x. split; [|done]. cbn [concat]. apply elem_of_app. by right.
    + right. exists m. split; [|done]. cbn [concat]. apply elem_of_app. by left.
Qed.

(** The preference lists of a text that matches the crisis and the
    gratitude pattern. *)
Lemma mood_preferences_crisis_gratitude (text_l : str) :
  found (fst rule_crisis) text_l = true ->
  found (fst rule_gratitude) text_l = true ->
  exists pre mid,
    mood_preferences text_l = pre ++ snd rule_crisis :: mid ++ [snd rule_gratitude]
    /\ (pre = [] \/ pre = [snd rule_anxiety])
    /\ forall x, x ∈ concat mid -> x ∈ other_labels.
Proof.
  intros Hc Hg.
  exists (if found (fst rule_anxiety) text_l then [snd rule_anxiety] else []),
         ((if found (fst rule_exhaustion) text_l then [snd rule_exhaustion] else [])
          ++ (if found (fst rule_trapped) text_l then [snd rule_trapped] else [])
          ++ (if found (fst rule_frustration) text_l then [snd rule_frustration] else [])
          ++ (if found (fst rule_motivation) text_l then [snd rule_motivation] else [])).
  unfold mood_preferences, append_if. rewrite Hc, Hg.
  split; [|split].
  - destruct (found (fst rule_anxiety) text_l), (found (fst rule_exhaustion) text_l),
      (found (fst rule_trapped) text_l), (found (fst rule_frustration) text_l),
      (found (fst rule_motivation) text_l); reflexivity.
  - destruct (found (fst rule_anxiety) text_l); auto.
  - intros x. unfold other_labels. rewrite !concat_app, !elem_of_app.
    destruct (found (fst rule_exhaustion) text_l), (found (fst rule_trapped) text_l),
      (found (fst rule_frustration) text_l), (found (fst rule_motivation) text_l);
      cbn [concat]; rewrite ?app_nil_r, ?elem_of_nil; tauto.
Qed.

Lemma anxiety_in_other_labels (x : str) : x ∈ snd rule_anxiety -> x ∈ other_labels.
Proof. intros Hx. unfold other_labels. apply elem_of_app. by left. Qed.

Lemma crisis_candidates :
  snd rule_crisis = u8 "Depressed" :: [u8 "Hopeless"; u8 "Miserable"; u8 "Down"].
Proof. reflexivity. Qed.

Lemma gratitude_candidates :
  snd rule_gratitude
  = u8 "Grateful" :: [u8 "Hopeful"; u8 "Optimistic"; u8 "Good"; u8 "Content"].
Proof. reflexivity. Qed.

(** From the crisis category on, with nothing chosen before. *)
Lemma crisis_first (mid : list (list str)) (mood_pool : gset str) :
  u8 "Depressed" ∈ mood_pool -> u8 "Grateful" ∈ mood_pool ->
  let chosen :=
    scan_categories (snd rule_crisis :: mid ++ [snd rule_gratitude]) mood_pool [] in
  chosen = [u8 "Depressed"; u8 "Grateful"]
  \/ exists x, x ∈ concat mid /\ x ∈ mood_pool /\ chosen = [u8 "Depressed"; x].
Proof.
  intros HD HG. cbn [scan_categories]. rewrite crisis_candidates, gratitude_candidates.
  rewrite scan_prefs_head; [|done|apply not_elem_of_nil].
  cbn [app length Nat.leb].
  apply scan_categories_from_one; [done|by vm_compute].
Qed.

Lemma chosen_shape (text : str) (mood_pool : gset str) :
  found (fst rule_crisis) (lower text) = true ->
  found (fst rule_gratitude) (lower text) = true ->
  u8 "Depressed" ∈ mood_pool -> u8 "Grateful" ∈ mood_pool ->
  let chosen := scan_categories (mood_preferences (lower text)) mood_pool [] in
  chosen = [u8 "Depressed"; u8 "Grateful"]
  \/ exists other, other ∈ other_labels /\ other ∈ mood_pool
       /\ (chosen = [other; u8 "Depressed"] \/ chosen = [u8 "Depressed"; other]).
Proof.
  intros Hc Hg HD HG chosen. subst chosen.
  destruct (mood_preferences_crisis_gratitude _ Hc Hg) as (pre & mid & -> & Hpre & Hmid).
  pose proof (crisis_first mid mood_pool HD HG) as Hfirst. cbn zeta in Hfirst.
  assert (Hno_anxiety :
    scan_categories (snd rule_crisis :: mid ++ [snd rule_gratitude]) mood_pool []
    = [u8 "Depressed"; u8 "Grateful"]
    \/ exists other, other ∈ other_labels /\ other ∈ mood_pool
       /\ (scan_categories (snd rule_crisis :: mid ++ [snd rule_gratitude]) mood_pool []
           = [other; u8 "Depressed"]
           \/ scan_categories (snd rule_crisis :: mid ++ [snd rule_gratitude]) mood_pool []
              = [u8 "Depressed"; other])).
  { destruct Hfirst as [Hr | (x & Hx & Hxp & Hr)]; [by left|].
    right. exists x. split; [by apply Hmid|]. split; [done|]. by right. }
  destruct Hpre as [-> | ->]; [exact Hno_anxiety|].
  cbn [app]. cbn [scan_categories].
  destruct (scan_prefs_cases (snd rule_anxiety) mood_pool [])
    as [-> | (a & Ha & Hap & _ & ->)].
  - cbn [length Nat.leb]. exact Hno_anxiety.
  - cbn [app length Nat.leb]. rewrite crisis_candidates.
    apply anxiety_in_other_labels in Ha.
    rewrite scan_prefs_head; [|done|].
    + cbn [app length Nat.leb]. right. exists a. split; [done|]. split; [done|]. by left.
    + intros Hin. apply list_elem_of_singleton in Hin.
      by destruct (other_labels_distinct a Ha) as [Hne _].
Qed.

(** C8 (as the code has it): for a text matched by the crisis and the
    gratitude pattern and a pool with both top candidates, the result
    always holds the crisis label, and the gratitude label, when it is in
    the result, comes after it.  The result is the two of them in that
    order unless a label of another category has taken a slot, and then the
    gratitude label is left out. *)
Theorem crisis_label_precedes_gratitude (text : str) (mood_pool : gset str)
    (allow_fallback : bool) :
  found (fst rule_crisis) (lower text) = true ->
  found (fst rule_gratitude) (lower text) = true ->
  u8 "Depressed" ∈ mood_pool -> u8 "Grateful" ∈ mood_pool ->
  let chosen := choose_mood_chosen text mood_pool allow_fallback in
  choose_mood text mood_pool allow_fallback = join (u8 ";") chosen
  /\ (exists i, chosen !! i = Some (u8 "Depressed")
        /\ forall j, chosen !! j = Some (u8 "Grateful") -> (i < j)%nat)
  /\ (chosen = [u8 "Depressed"; u8 "Grateful"]
      \/ exists other, other ∈ other_labels /\ other ∈ mood_pool
           /\ (chosen = [other; u8 "Depressed"] \/ chosen = [u8 "Depressed"; other])).
Proof.
  intros Hc Hg HD HG chosen. split; [apply choose_mood_join|].
  pose proof (chosen_shape text mood_pool Hc Hg HD HG) as Hshape. cbn zeta in Hshape.
  assert (Heq : chosen = scan_categories (mood_preferences (lower text)) mood_pool []).
  { subst chosen. unfold choose_mood_chosen.
    destruct Hshape as [-> | (x & _ & _ & [-> | ->])];
      by rewrite andb_false_r. }
  rewrite Heq. split; [|exact Hshape].
  destruct Hshape as [-> | (x & Hx & _ & [-> | ->])].
  - exists 0%nat. split; [done|]. intros [|j] Hj; [by vm_compute in Hj|lia].
  - destruct (other_labels_distinct x Hx) as [_ HxG].
    exists 1%nat. split; [done|]. intros [|[|j]] Hj; [|by vm_compute in Hj|done].
    by injection Hj.
  - destruct (other_labels_distinct x Hx) as [_ HxG].
    exists 0%nat. split; [done|]. intros [|[|j]] Hj; [by vm_compute in Hj| |done].
    by injection Hj.
Qed.

(** ** Deduplication *)

Lemma process_entry_key net a mood_pool existing_keys api_key content sent r sent' :
  force a = false ->
  run net (process_entry a mood_pool existing_keys api_key content) sent = (Ok r, sent') ->
  match entry_key a content with
  | Some k =>
    if bool_decide (k ∈ existing_keys) then r = None
    else exists new_row, r = Some new_row /\ main_key new_row = k
  | None => r = None
  end.
Proof.
  intros Hforce. unfold process_entry, entry_key. rewrite run_bind.
  destruct (process_html_file content) as [[[date_obj title] body] | e];
    cbn [lift run]; [|discriminate].
  destruct date_obj as [date_obj|]; cbn [run]; [|congruence].
  destruct (nonempty_list body); cbn [negb run]; [|congruence].
  rewrite run_bind.
  destruct (format_date_for_csv date_obj (time a)) as [date_str | e];
    cbn [lift run]; [|discriminate].
  rewrite run_bind.
  destruct (run net _ sent) as [[mood | e] sent1]; [|discriminate].
  rewrite Hforce. cbn [negb andb].
  case_bool_decide as Hk; cbn [run]; intros Hr; injection Hr as <- _.
  - by rewrite bool_decide_eq_true_2.
  - rewrite bool_decide_eq_false_2 by done. eexists. split; reflexivity.
Qed.

Lemma file_keys_cons a filename content (rest : list (str * list event)) :
  omap (file_key a) ((filename, content) :: rest)
  = match (if endswith filename (u8 ".html") then entry_key a content else None) with
    | Some k => k :: omap (file_key a) rest
    | None => omap (file_key a) rest
    end.
Proof. reflexivity. Qed.

Lemma main_loop_keys net a mood_pool existing_keys api_key files :
  force a = false ->
  forall new_rows sent rows sent',
  run net (main_loop a mood_pool existing_keys api_key files new_rows) sent
  = (Ok rows, sent') ->
  map main_key rows
  = map main_key new_rows
    ++ absent_from existing_keys (omap (file_key a) files).
Proof.
  intros Hforce. unfold absent_from. induction files as [|[filename content] rest IH];
    intros new_rows sent rows sent'; cbn [main_loop].
  - cbn [run]. intros Hr. injection Hr as <- _. by rewrite app_nil_r.
  - rewrite file_keys_cons.
    destruct (endswith filename (u8 ".html")); cbn [negb]; [|apply IH].
    rewrite run_bind.
    destruct (run net (process_entry _ _ _ _ _) sent) as [[r | e] sent1] eqn:Hentry;
      [|discriminate].
    apply process_entry_key in Hentry; [|done].
    destruct (entry_key a content) as [k|].
    + case_bool_decide as Hk.
      * subst r. intros Hr. apply IH in Hr. rewrite Hr. f_equal.
        rewrite filter_cons_False; [done|]. by intros Hnot.
      * destruct Hentry as (new_row & -> & Hkey). intros Hr. apply IH in Hr.
        rewrite Hr, map_app, <- app_assoc. f_equal. cbn [map app].
        rewrite filter_cons_True by done. by rewrite Hkey.
    + subst r. apply IH.
Qed.

(** C2 (as the code has it): with the force flag off, the records a run
    accepts are, in order, those of the pages whose dedup key is not in the
    key set read from the store at the start.  The set is not extended
    during the run: a page is accepted or not whatever was accepted before
    it, pages with equal keys included. *)
Theorem accepted_iff_key_not_in_store (net : nat -> request -> response) (a : args) (mood_pool : gset str)
    (existing_keys : gset key) (api_key : str) (files : list (str * list event))
    (sent : list request) (rows : list row) (sent' : list request) :
  force a = false ->
  run net (main_loop a mood_pool existing_keys api_key files []) sent = (Ok rows, sent') ->
  map main_key rows = absent_from existing_keys (omap (file_key a) files).
Proof.
  intros Hforce Hrun. by apply main_loop_keys in Hrun.
Qed.

End Properties.

(** * Further properties of the pipeline *)

Section Text.
Context `{PyRuntime}.

(** ** Stripping *)

Lemma last_rev {A} (l : list A) : last (rev l) = head l.
Proof. destruct l as [|x l]; [done|]. cbn [rev head]. apply last_snoc. Qed.

Lemma head_rev {A} (l : list A) : head (rev l) = last l.
Proof. rewrite <- (rev_involutive l) at 2. by rewrite last_rev. Qed.

Lemma lstrip_split (s : str) :
  exists pre, s = pre ++ lstrip s /\ Forall (fun c => isspace c = true) pre.
Proof.
  induction s as [|c s IH]; [by exists []|]. cbn [lstrip].
  destruct (isspace c) eqn:Hc; [|by exists []].
  destruct IH as (pre & Hs & Hpre). exists (c :: pre). split.
  - cbn [app]. by f_equal.
  - by constructor.
Qed.

Lemma lstrip_head (s : str) (c : char) : head (lstrip s) = Some c -> isspace c = false.
Proof.
  induction s as [|d s IH]; cbn [lstrip]; [done|].
  destruct (isspace d) eqn:Hd; [done|]. cbn [head]. by intros [= <-].
Qed.

Lemma lstrip_id (s : str) :
  (forall c, head s = Some c -> isspace c = false) -> lstrip s = s.
Proof.
  destruct s as [|c s]; [done|]. intros Hhead. cbn [lstrip].
  by rewrite (Hhead c eq_refl).
Qed.

Lemma lstrip_length (s : str) : (length (lstrip s) <= length s)%nat.
Proof.
  destruct (lstrip_split s) as (pre & Hs & _). rewrite Hs at 2.
  rewrite length_app. lia.
Qed.

Lemma lstrip_nil_inv (s : str) : lstrip s = [] -> Forall (fun c => isspace c = true) s.
Proof.
  intros Hs. destruct (lstrip_split s) as (pre & Heq & Hpre).
  rewrite Hs, app_nil_r in Heq. by subst.
Qed.

Lemma lstrip_last (s : str) :
  lstrip s <> [] -> last (lstrip s) = last s.
Proof.
  intros Hne. destruct (lstrip_split s) as (pre & Heq & _).
  rewrite Heq at 2. destruct (lstrip s) as [|d r] eqn:Hr; [done|].
  by rewrite last_app_cons.
Qed.

(** [strip] cuts whitespace off both ends and nothing else. *)
Lemma strip_split (s : str) :
  exists pre post, s = pre ++ strip s ++ post
    /\ Forall (fun c => isspace c = true) pre
    /\ Forall (fun c => isspace c = true) post.
Proof.
  unfold strip. destruct (lstrip_split s) as (pre & Hs & Hpre).
  destruct (lstrip_split (rev (lstrip s))) as (post & Hr & Hpost).
  exists pre, (rev post). split; [|split; [done|by apply Forall_rev]].
  rewrite Hs at 1. f_equal.
  rewrite <- (rev_involutive (lstrip s)), Hr at 1. by rewrite rev_app_distr.
Qed.

Lemma strip_head (s : str) (c : char) : head (strip s) = Some c -> isspace c = false.
Proof.
  unfold strip. rewrite head_rev. intros Hc.
  rewrite lstrip_last in Hc by (intros E; by rewrite E in Hc).
  rewrite last_rev in Hc. by apply lstrip_head in Hc.
Qed.

Lemma strip_last (s : str) (c : char) : last (strip s) = Some c -> isspace c = false.
Proof.
  unfold strip. rewrite last_rev. apply lstrip_head.
Qed.

Lemma strip_id (s : str) :
  (forall c, head s = Some c -> isspace c = false) ->
  (forall c, last s = Some c -> isspace c = false) ->
  strip s = s.
Proof.
  intros Hhead Hlast. unfold strip. rewrite (lstrip_id s) by done.
  rewrite lstrip_id; [apply rev_involutive|].
  intros c. rewrite head_rev. apply Hlast.
Qed.

Lemma strip_strip (s : str) : strip (strip s) = strip s.
Proof. apply strip_id; [apply strip_head|apply strip_last]. Qed.

Lemma visible_app (a b : str) : visible (a ++ b) = visible a ++ visible b.
Proof. apply filter_app. Qed.

Lemma visible_spaces (s : str) : Forall (fun c => isspace c = true) s -> visible s = [].
Proof.
  induction s as [|c s IH]; intros Hs; [done|].
  apply Forall_cons in Hs as [Hc Hs]. unfold visible. rewrite filter_cons.
  rewrite decide_False by congruence. by apply IH.
Qed.

Lemma visible_lstrip (s : str) : visible (lstrip s) = visible s.
Proof.
  destruct (lstrip_split s) as (pre & Hs & Hpre). rewrite Hs at 2.
  by rewrite visible_app, (visible_spaces pre).
Qed.

Lemma visible_strip (s : str) : visible (strip s) = visible s.
Proof.
  destruct (strip_split s) as (pre & post & Hs & Hpre & Hpost). rewrite Hs at 2.
  rewrite !visible_app, (visible_spaces pre), (visible_spaces post) by done.
  by rewrite app_nil_r.
Qed.

(** ** Whitespace runs *)

Lemma rep_spaces_all {A} (prev : option char) (s : str)
    (k : option char -> str -> option A) (f : str -> A) :
  (forall prev' s', k prev' s' = Some (f s')) ->
  rep isspace 0 None prev s k = Some (f (lstrip s)).
Proof.
  intros Hk. revert prev.
  induction s as [|c s IH]; intros prev; cbn [rep lstrip]; [done|].
  destruct (isspace c); cbn [andb more fmap option_fmap option_map Nat.pred]; [|done].
  by rewrite IH.
Qed.

(** [\s+] at the front of a text takes the whole run of whitespace. *)
Lemma re_match_spaces (prev : option char) (s : str) :
  re_match spaces prev s
  = match s with
    | c :: s' => if isspace c then Some (lstrip s', []) else None
    | [] => None
    end.
Proof.
  unfold re_match, spaces. cbn [m]. destruct s as [|c s]; cbn [rep]; [done|].
  destruct (isspace c); cbn [andb more fmap option_fmap option_map Nat.pred]; [|done].
  by rewrite (rep_spaces_all (A := str * caps) (Some c) s _ (fun s' => (s', []))).
Qed.

Lemma run_length_space (c : char) (s : str) :
  isspace c = true -> run_length (c :: s) = S (run_length s).
Proof.
  intros Hc. unfold run_length. cbn [lstrip length]. rewrite Hc.
  pose proof (lstrip_length s). lia.
Qed.

Lemma run_length_visible (c : char) (s : str) :
  isspace c = false -> run_length (c :: s) = 0%nat.
Proof. intros Hc. unfold run_length. cbn [lstrip]. rewrite Hc. lia. Qed.

(** [re.sub(r"\s+", repl, s)] is [collapse]. *)
Lemma sub_spaces (repl s : str) :
  forall prev,
    sub_from spaces repl prev s (run_length s) = collapse repl true s
    /\ sub_from spaces repl prev s 0 = collapse repl false s.
Proof.
  induction s as [|c s IH]; intros prev; [done|].
  destruct (isspace c) eqn:Hc.
  - rewrite run_length_space by done. cbn [sub_from collapse].
    rewrite re_match_spaces, Hc.
    assert (Hrun : (length (c :: s) - length (lstrip s))%nat = S (run_length s)).
    { rewrite <- (run_length_space c s Hc). unfold run_length. cbn [lstrip]. by rewrite Hc. }
    rewrite Hrun. destruct (IH (Some c)) as [-> _]. done.
  - rewrite run_length_visible by done. cbn [sub_from collapse].
    rewrite re_match_spaces, Hc. destruct (IH (Some c)) as [_ ->]. done.
Qed.

Lemma normalize_text_collapse (text : str) :
  normalize_text text = strip (collapse (u8 " ") false text).
Proof. unfold normalize_text, re_sub. by destruct (sub_spaces (u8 " ") text None) as [_ ->]. Qed.

Section Space.
Hypothesis space_isspace : isspace 32 = true.

Lemma collapse_visible (b : bool) (s : str) :
  visible (collapse (u8 " ") b s) = visible s.
Proof.
  revert b. induction s as [|c s IH]; intros b; [done|]. cbn [collapse].
  unfold visible in *. rewrite (filter_cons _ c s).
  destruct (isspace c) eqn:Hc.
  - rewrite decide_False by congruence. destruct b; [apply IH|].
    change (u8 " " ++ collapse (u8 " ") true s) with (32 :: collapse (u8 " ") true s).
    rewrite filter_cons, decide_False by congruence. apply IH.
  - rewrite filter_cons, decide_True by done. f_equal. apply IH.
Qed.

Lemma collapse_only_space (b : bool) (s : str) :
  Forall (fun c => isspace c = true -> c = 32) (collapse (u8 " ") b s).
Proof.
  revert b. induction s as [|c s IH]; intros b; cbn [collapse]; [constructor|].
  destruct (isspace c) eqn:Hc.
  - destruct b; [apply IH|]. constructor; [done|apply IH].
  - constructor; [congruence|apply IH].
Qed.

Lemma collapse_spaced (b : bool) (s : str) : spaced b (collapse (u8 " ") b s) = true.
Proof.
  revert b. induction s as [|c s IH]; intros b; cbn [collapse]; [done|].
  destruct (isspace c) eqn:Hc.
  - destruct b; [apply IH|].
    change (u8 " " ++ collapse (u8 " ") true s) with (32 :: collapse (u8 " ") true s).
    cbn [spaced]. rewrite space_isspace. cbn [negb andb]. apply IH.
  - cbn [spaced]. rewrite Hc. apply IH.
Qed.

Lemma collapse_id (b : bool) (s : str) :
  spaced b s = true -> Forall (fun c => isspace c = true -> c = 32) s ->
  collapse (u8 " ") b s = s.
Proof.
  revert b. induction s as [|c s IH]; intros b Hsp Hall; [done|].
  apply Forall_cons in Hall as [Hc Hall]. cbn [collapse spaced] in *.
  destruct (isspace c) eqn:Hcs.
  - apply andb_prop in Hsp as [Hb Hsp]. destruct b; [done|].
    rewrite (Hc eq_refl). change (u8 " " ++ ?l) with (32 :: l). f_equal. by apply IH.
  - f_equal. by apply IH.
Qed.

End Space.

Lemma spaced_adjacent (b : bool) (s l1 : str) (c d : char) (l2 : str) :
  spaced b s = true -> s = l1 ++ c :: d :: l2 -> isspace c = true -> isspace d = false.
Proof.
  revert b s. induction l1 as [|x l1 IH]; intros b s Hsp -> Hc; cbn [app spaced] in Hsp.
  - rewrite Hc in Hsp. apply andb_prop in Hsp as [_ Hsp].
    destruct (isspace d); [|done]. done.
  - destruct (isspace x).
    + apply andb_prop in Hsp as [_ Hsp]. by eapply IH.
    + by eapply IH.
Qed.

Lemma adjacent_spaced (s : str) :
  (forall l1 c d l2, s = l1 ++ c :: d :: l2 -> isspace c = true -> isspace d = false) ->
  spaced false s = true
  /\ ((forall c, head s = Some c -> isspace c = false) -> spaced true s = true).
Proof.
  induction s as [|c s IH]; intros Hadj; [done|].
  destruct IH as [IHf IHt].
  { intros l1 x y l2 -> Hx. by apply (Hadj (c :: l1) x y l2). }
  cbn [spaced]. destruct (isspace c) eqn:Hc.
  - assert (Hs : spaced true s = true).
    { apply IHt. intros d Hd. destruct s as [|d' s]; [done|]. injection Hd as ->.
      by apply (Hadj [] c d s). }
    split; [done|]. intros Hhead. by rewrite (Hhead c eq_refl) in Hc.
  - done.
Qed.

(** ** [normalize_text] *)

Lemma normalize_text_is_tidy (text : str) :
  isspace 32 = true -> tidy (normalize_text text).
Proof.
  intros Hsp. rewrite normalize_text_collapse.
  set (u := collapse (u8 " ") false text).
  destruct (strip_split u) as (pre & post & Hu & _ & _).
  split; [apply strip_head|]. split; [apply strip_last|]. split.
  - pose proof (collapse_only_space false text) as Hall. fold u in Hall.
    rewrite Hu in Hall. apply Forall_app in Hall as [_ Hall].
    by apply Forall_app in Hall as [Hall _].
  - intros l1 c d l2 Heq. apply (spaced_adjacent false u (pre ++ l1) c d (l2 ++ post)).
    + by apply collapse_spaced.
    + rewrite Hu, Heq. by rewrite <- !app_assoc.
Qed.

Lemma tidy_normalize_text (text : str) :
  isspace 32 = true -> tidy text -> normalize_text text = text.
Proof.
  intros Hsp (Hhead & Hlast & Hall & Hadj). rewrite normalize_text_collapse.
  rewrite collapse_id; [by apply strip_id| |done].
  by apply adjacent_spaced.
Qed.

(** X1: [normalize_text] gives a text without whitespace at its ends, whose
    only whitespace character is the space and in which no two spaces
    follow each other; the characters that are not whitespace are those of
    the input, in order. *)
Theorem normalize_text_normal_form (text : str) :
  isspace 32 = true ->
  tidy (normalize_text text) /\ visible (normalize_text text) = visible text.
Proof.
  intros Hsp. split; [by apply normalize_text_is_tidy|].
  rewrite normalize_text_collapse, visible_strip. by apply collapse_visible.
Qed.

(** X2: the texts [normalize_text] leaves unchanged are exactly those in
    that form, so normalising twice is normalising once. *)
Theorem normalize_text_idempotent (text : str) :
  isspace 32 = true ->
  (normalize_text text = text <-> tidy text)
  /\ normalize_text (normalize_text text) = normalize_text text.
Proof.
  intros Hsp. split; [split|].
  - intros <-. by apply normalize_text_is_tidy.
  - by apply tidy_normalize_text.
  - apply tidy_normalize_text; [done|]. by apply normalize_text_is_tidy.
Qed.

(** ** [split_sentences] *)

Lemma re_match_sentence_break (prev : option char) (s : str) :
  re_match sentence_break prev s
  = match prev, s with
    | Some b, c :: s' =>
      if one_of (u8 ".!?") b && isspace c then Some (lstrip s', []) else None
    | _, _ => None
    end.
Proof.
  unfold re_match, sentence_break. cbn [m].
  destruct prev as [b|]; [|by destruct s].
  destruct (one_of (u8 ".!?") b); cbn [andb]; [|by destruct s].
  exact (re_match_spaces (Some b) s).
Qed.

Lemma split_sentences_parts (text : str) :
  split_sentences text
  = map strip (filter (fun p => Is_true (nonempty_list (strip p)))
                      (split_from sentence_break None text 0 [])).
Proof. reflexivity. Qed.

(** The pieces of [re.split] hold every character that is not whitespace. *)
Lemma split_from_visible (s : str) :
  forall prev skip cur,
    (skip <= run_length s)%nat ->
    visible (concat (split_from sentence_break prev s skip cur))
    = visible cur ++ visible s.
Proof.
  induction s as [|c s IH]; intros prev skip cur Hskip; cbn [split_from].
  - cbn [concat]. by rewrite visible_app.
  - assert (Hc : visible (c :: s) = if isspace c then visible s else c :: visible s).
    { unfold visible. rewrite filter_cons. destruct (isspace c); by simplify_eq/=. }
    destruct skip as [|n].
    + rewrite re_match_sentence_break. destruct prev as [b|].
      * destruct (one_of (u8 ".!?") b && isspace c) eqn:Hm.
        -- apply andb_prop in Hm as [_ Hsp].
           assert (Hrun : (length (c :: s) - length (lstrip s))%nat = S (run_length s)).
           { rewrite <- (run_length_space c s Hsp). unfold run_length. cbn [lstrip].
             by rewrite Hsp. }
           rewrite Hrun. cbn [concat]. rewrite visible_app, IH by done.
           rewrite Hc, Hsp. done.
        -- rewrite IH by lia. rewrite visible_app, Hc, <- app_assoc.
           unfold visible at 2. rewrite filter_cons.
           destruct (isspace c); by simplify_eq/=.
      * rewrite IH by lia. rewrite visible_app, Hc, <- app_assoc.
        unfold visible at 2. rewrite filter_cons.
        destruct (isspace c); by simplify_eq/=.
    + destruct (isspace c) eqn:Hsp.
      * rewrite run_length_space in Hskip by done. rewrite IH by lia. by rewrite Hc.
      * rewrite run_length_visible in Hskip by done. lia.
Qed.

Lemma stripped_parts_visible (parts : list str) :
  visible (concat (map strip (filter (fun p => Is_true (nonempty_list (strip p))) parts)))
  = visible (concat parts).
Proof.
  induction parts as [|p parts IH]; [done|].
  rewrite filter_cons. cbn [concat]. rewrite visible_app, <- IH, <- (visible_strip p).
  destruct (decide _) as [Hp | Hp].
  - cbn [map concat]. by rewrite visible_app.
  - destruct (strip p); [done|]. by destruct Hp.
Qed.

(** X3: the sentences of [split_sentences] are not empty and carry no
    whitespace at their ends, and together they hold every character of
    the text that is not whitespace, in order: only whitespace is dropped. *)
Theorem split_sentences_keeps_text (text : str) :
  Forall (fun s => s <> [] /\ strip s = s) (split_sentences text)
  /\ visible (concat (split_sentences text)) = visible text.
Proof.
  rewrite split_sentences_parts. split.
  - apply Forall_forall. intros s Hs. apply list_elem_of_fmap in Hs as (p & -> & Hp).
    apply list_elem_of_filter in Hp as [Hp _]. split; [|apply strip_strip].
    by destruct (strip p).
  - rewrite stripped_parts_visible. rewrite split_from_visible by lia. done.
Qed.

Lemma one_of_elem (cs : str) (c : char) : one_of cs c = true -> c ∈ cs.
Proof. unfold one_of. apply bool_decide_eq_true_1. Qed.

Lemma strip_keeps_last (p : str) (c : char) :
  last p = Some c -> isspace c = false -> last (strip p) = Some c.
Proof.
  intros Hlast Hc. destruct (strip_split p) as (pre & post & Hp & Hpre & Hpost).
  assert (Hpost' : post = []).
  { destruct (last post) as [d|] eqn:Hd; [|by apply last_None].
    exfalso. assert (Hd' : last p = Some d).
    { rewrite Hp, !last_app, Hd. done. }
    rewrite Hlast in Hd'. injection Hd' as ->.
    apply last_Some_elem_of in Hd.
    rewrite Forall_forall in Hpost. apply Hpost in Hd. congruence. }
  subst post. rewrite app_nil_r in Hp.
  destruct (last (strip p)) as [d|] eqn:Hd.
  - rewrite Hp, last_app, Hd in Hlast. done.
  - apply last_None in Hd. rewrite Hd, app_nil_r in Hp. subst pre.
    apply last_Some_elem_of in Hlast.
    rewrite Forall_forall in Hpre. apply Hpre in Hlast. congruence.
Qed.

(** Every piece of [re.split] but the last ends where the pattern looked
    behind: with a terminal character. *)
Lemma split_from_pieces (s : str) :
  (forall c, c ∈ u8 ".!?" -> isspace c = false) ->
  forall prev skip cur,
    (skip <= run_length s)%nat ->
    match prev with
    | Some b => last cur = Some b \/ isspace b = true
    | None => True
    end ->
    exists init lastp,
      split_from sentence_break prev s skip cur = init ++ [lastp]
      /\ Forall ends_sentence init.
Proof.
  intros Hterm. induction s as [|c s IH]; intros prev skip cur Hskip Hinv; cbn [split_from].
  - by exists [], cur.
  - destruct skip as [|n].
    + assert (Hnext : exists init lastp,
                split_from sentence_break (Some c) s 0 (cur ++ [c]) = init ++ [lastp]
                /\ Forall ends_sentence init).
      { apply IH; [lia|]. left. apply last_snoc. }
      rewrite re_match_sentence_break. destruct prev as [b|]; [|done].
      destruct (one_of (u8 ".!?") b && isspace c) eqn:Hm; [|done].
      apply andb_prop in Hm as [Hb Hsp]. apply one_of_elem in Hb.
      assert (Hrun : (length (c :: s) - length (lstrip s))%nat = S (run_length s)).
      { rewrite <- (run_length_space c s Hsp). unfold run_length. cbn [lstrip].
        by rewrite Hsp. }
      rewrite Hrun. cbn [concat].
      destruct (IH (Some c) (run_length s) []) as (init & lastp & Heq & Hinit);
        [lia|by right|].
      exists (cur :: init), lastp. split; [cbn [app]; f_equal; exact Heq|].
      constructor; [|done].
      exists b. split; [|done]. destruct Hinv as [Hlast | Hbsp]; [done|].
      rewrite (Hterm b Hb) in Hbsp. done.
    + destruct (isspace c) eqn:Hsp.
      * rewrite run_length_space in Hskip by done. apply IH; [lia|by right].
      * rewrite run_length_visible in Hskip by done. lia.
Qed.

(** X4: every sentence of [split_sentences] but the last ends with the
    [.], [!] or [?] after which the text was cut. *)
Theorem sentences_keep_their_punctuation (text : str) (ss : list str) (s : str) :
  (forall c, c ∈ u8 ".!?" -> isspace c = false) ->
  split_sentences text = ss ++ [s] ->
  Forall ends_sentence ss.
Proof.
  intros Hterm.
  destruct (split_from_pieces text Hterm None 0%nat []) as (init & lastp & Heq & Hinit);
    [lia|done|].
  assert (Hss : split_sentences text
                = map strip (filter (fun p => Is_true (nonempty_list (strip p)))
                                    (init ++ [lastp]))).
  { rewrite split_sentences_parts. do 2 f_equal. exact Heq. }
  rewrite Hss, filter_app, map_app.
  assert (Hmid : Forall ends_sentence
            (map strip (filter (fun p => Is_true (nonempty_list (strip p))) init))).
  { apply Forall_forall. intros x Hx. apply list_elem_of_fmap in Hx as (p & -> & Hp).
    apply list_elem_of_filter in Hp as [_ Hp].
    rewrite Forall_forall in Hinit. destruct (Hinit p Hp) as (c & Hlast & Hc).
    exists c. split; [|done]. apply strip_keeps_last; [done|by apply Hterm]. }
  rewrite filter_cons, filter_nil. destruct (decide _); cbn [map]; intros Hsplit.
  - apply app_inj_tail in Hsplit as [<- _]. done.
  - rewrite app_nil_r in Hsplit. rewrite Hsplit in Hmid.
    by apply Forall_app in Hmid as [Hmid _].
Qed.

(** ** [extract_takeaway] *)

Lemma first_intention_cases (sentences : list str) :
  (first_intention sentences = []
   /\ Forall (fun s => found intention_re s = false \/ s = []) sentences)
  \/ exists before after,
       sentences = before ++ first_intention sentences :: after
       /\ found intention_re (first_intention sentences) = true
       /\ Forall (fun s => found intention_re s = false) before.
Proof.
  induction sentences as [|s rest IH]; cbn [first_intention].
  - left. by split.
  - destruct (found intention_re s) eqn:Hs.
    + right. exists [], rest. by repeat split.
    + destruct IH as [[Hnone Hall] | (before & after & Hrest & Hfound & Hbefore)].
      * left. split; [done|]. constructor; [by left|done].
      * right. exists (s :: before), after. split; [|split; [done|by constructor]].
        cbn [app]. by f_equal.
Qed.

(** X5: the takeaway is the first sentence of the text in which the
    intention pattern is found, as it stands in the text; it is the empty
    string exactly when the pattern is found in no sentence. *)
Theorem extract_takeaway_first_match (text : str) :
  (extract_takeaway text = []
   <-> Forall (fun s => found intention_re s = false) (split_sentences text))
  /\ (extract_takeaway text <> [] ->
      exists before after,
        split_sentences text = before ++ extract_takeaway text :: after
        /\ found intention_re (extract_takeaway text) = true
        /\ Forall (fun s => found intention_re s = false) before).
Proof.
  unfold extract_takeaway.
  assert (Hne : Forall (fun s => s <> []) (split_sentences text)).
  { rewrite split_sentences_parts. apply Forall_forall. intros s Hs.
    apply list_elem_of_fmap in Hs as (p & -> & Hp).
    apply list_elem_of_filter in Hp as [Hp _]. by destruct (strip p). }
  destruct (first_intention_cases (split_sentences text))
    as [[Hnone Hall] | (before & after & Hsplit & Hfound & Hbefore)].
  - split; [|by rewrite Hnone]. split; [|done]. intros _.
    rewrite Forall_forall in Hall, Hne. apply Forall_forall. intros s Hs.
    destruct (Hall s Hs) as [Hs' | ->]; [done|]. by destruct (Hne [] Hs).
  - assert (Hin : first_intention (split_sentences text) ∈ split_sentences text).
    { rewrite Hsplit at 2. apply elem_of_app. right. by apply elem_of_cons; left. }
    split.
    + split.
      * intros Hempty. rewrite Forall_forall in Hne. destruct (Hne _ Hin Hempty).
      * intros Hall. rewrite Forall_forall in Hall. rewrite (Hall _ Hin) in Hfound. done.
    + intros _. by exists before, after.
Qed.

End Text.


Section Parser.
Context `{PyRuntime}.

(** X6: as long as no [body] start tag comes, a parser that is outside
    the body captures nothing: header, title and body fragments stay as
    they are, whatever tags and text are fed. *)
Theorem nothing_captured_outside_body (self : JournalHTMLParser) (events : list event) :
  in_body self = false ->
  Forall (fun e => opens_body e = false) events ->
  in_body (feed self events) = false
  /\ page_header (feed self events) = page_header self
  /\ title (feed self events) = title self
  /\ text_parts (feed self events) = text_parts self.
Proof.
  unfold feed. revert self.
  induction events as [|e events IH]; intros self Hout Hev; [done|].
  apply Forall_cons in Hev as [He Hev]. cbn [foldl].
  assert (Hstep : in_body (handle self e) = false
                  /\ page_header (handle self e) = page_header self
                  /\ title (handle self e) = title self
                  /\ text_parts (handle self e) = text_parts self).
  { destruct e as [tag attrs | tag | data]; cbn [handle opens_body] in *.
    - unfold handle_starttag. rewrite He, Hout. done.
    - unfold handle_endtag. cbn [in_body page_header title text_parts]. rewrite Hout.
      by destruct (str_eqb tag (u8 "body")).
    - unfold handle_data. by rewrite Hout. }
  destruct Hstep as (Hb & Hh & Ht & Hp).
  destruct (IH (handle self e) Hb Hev) as (-> & -> & -> & ->). done.
Qed.

Lemma handle_inline (self : JournalHTMLParser) (e : event) :
  in_body self = true -> inline e = true ->
  let capture := negb (in_page_header self) && negb (in_title self) in
  in_body (handle self e) = true
  /\ in_page_header (handle self e) = in_page_header self
  /\ in_title (handle self e) = in_title self
  /\ page_header (handle self e)
     = page_header self ++ (if in_page_header self then texts [e] else [])
  /\ title (handle self e)
     = title self ++ (if negb (in_page_header self) && in_title self then texts [e] else [])
  /\ text_parts (handle self e) = text_parts self ++ fragments capture [e].
Proof.
  intros Hin He. destruct e as [tag attrs | tag | data]; cbn [handle inline] in *.
  - unfold handle_starttag, str_in in *. rewrite Hin.
    apply negb_true_iff, bool_decide_eq_false in He.
    assert (Hdiv : str_eqb tag (u8 "div") = false).
    { apply bool_decide_eq_false. intros ->. apply He. by apply elem_of_cons; left. }
    assert (Hbody : str_eqb tag (u8 "body") = false).
    { apply bool_decide_eq_false. intros ->. apply He.
      apply elem_of_cons; right. by apply elem_of_cons; left. }
    rewrite Hdiv, Hbody. cbn [negb andb in_body in_page_header in_title page_header title
                               text_parts texts omap list_omap concat fragments map].
    rewrite !app_nil_r.
    unfold str_in.
    destruct (in_page_header self), (in_title self); cbn [negb andb]; rewrite ?app_nil_r;
      repeat split; destruct (bool_decide _); by rewrite ?app_nil_r.
  - unfold handle_endtag, str_in in *.
    apply negb_true_iff, bool_decide_eq_false in He.
    assert (Hdiv : str_eqb tag (u8 "div") = false).
    { apply bool_decide_eq_false. intros ->. apply He. by apply elem_of_cons; left. }
    assert (Hbody : str_eqb tag (u8 "body") = false).
    { apply bool_decide_eq_false. intros ->. apply He.
      apply elem_of_cons; right. by apply elem_of_cons; left. }
    rewrite Hdiv, Hbody. cbn [in_body in_page_header in_title page_header title
                               text_parts texts omap list_omap concat fragments map].
    rewrite !app_nil_r.
    destruct (in_page_header self), (in_title self); cbn [negb andb]; rewrite ?app_nil_r;
      done.
  - unfold handle_data. rewrite Hin. cbn [negb].
    cbn [texts omap list_omap concat fragments map]. rewrite !app_nil_r.
    destruct (in_page_header self) eqn:Hh, (in_title self) eqn:Ht;
      cbn [negb andb in_body in_page_header in_title page_header title text_parts];
      rewrite ?app_nil_r; done.
Qed.

Lemma texts_cons (e : event) (events : list event) :
  texts (e :: events) = texts [e] ++ texts events.
Proof. unfold texts. cbn [omap list_omap]. destruct e; cbn [concat]; by rewrite ?app_nil_r. Qed.

Lemma fragments_cons (capture : bool) (e : event) (events : list event) :
  fragments capture (e :: events) = fragments capture [e] ++ fragments capture events.
Proof. unfold fragments. cbn [map concat]. by rewrite app_nil_r. Qed.

(** X7: inside the body, between the tags of [div]s and of the body, every
    piece of text goes to exactly one place: the header text while the
    page-header state is on, else the title text while the title state is
    on, else the body fragments; [p], [li] and [br] start tags add a
    newline fragment each, and nothing else is added anywhere. *)
Theorem text_goes_to_one_place (self : JournalHTMLParser) (events : list event) :
  in_body self = true ->
  Forall (fun e => inline e = true) events ->
  let capture := negb (in_page_header self) && negb (in_title self) in
  in_body (feed self events) = true
  /\ in_page_header (feed self events) = in_page_header self
  /\ in_title (feed self events) = in_title self
  /\ page_header (feed self events)
     = page_header self ++ (if in_page_header self then texts events else [])
  /\ title (feed self events)
     = title self
       ++ (if negb (in_page_header self) && in_title self then texts events else [])
  /\ text_parts (feed self events) = text_parts self ++ fragments capture events.
Proof.
  unfold feed. cbn zeta. revert self.
  induction events as [|e events IH]; intros self Hin Hev.
  - cbn [foldl]. rewrite !app_nil_r.
    destruct (in_page_header self), (in_title self); cbn [negb andb]; by rewrite ?app_nil_r.
  - apply Forall_cons in Hev as [He Hev]. cbn [foldl].
    destruct (handle_inline self e Hin He) as (Hb & Hh & Ht & Hph & Hti & Htp).
    destruct (IH (handle self e) Hb Hev) as (-> & -> & -> & -> & -> & ->).
    rewrite Hh, Ht, Hph, Hti, Htp, (texts_cons e events), (fragments_cons _ e events).
    destruct (in_page_header self), (in_title self); cbn [negb andb];
      rewrite ?app_nil_r, <- ?app_assoc; done.
Qed.

End Parser.


Section Page.
Context `{PyRuntime}.

Lemma re_match_bullet (prev : option char) (s : str) :
  isspace 8226 = false ->
  re_match bullet_re prev (8226 :: s) = Some (lstrip s, []).
Proof.
  intros Hb. unfold re_match, bullet_re. cbn [m rep]. rewrite Hb. cbn [andb].
  unfold chr. cbn [m]. rewrite N.eqb_refl.
  by rewrite (rep_spaces_all (A := str * caps) (Some 8226) s _ (fun s' => (s', []))).
Qed.

Lemma sub_bullets_no_bullet (repl : str) (s : str) :
  isspace 8226 = false -> 8226 ∉ repl ->
  forall prev skip, 8226 ∉ sub_from bullet_re repl prev s skip.
Proof.
  intros Hb Hrepl. induction s as [|c s IH]; intros prev skip; cbn [sub_from].
  - apply not_elem_of_nil.
  - destruct skip as [|n]; [|apply IH].
    assert (Hrepl' : forall n, 8226 ∉ repl ++ sub_from bullet_re repl (Some c) s n).
    { intros n Hin. apply elem_of_app in Hin as [Hin | Hin]; [done|]. by apply IH in Hin. }
    destruct (decide (c = 8226)) as [-> | Hc].
    + rewrite re_match_bullet by done.
      pose proof (lstrip_length s) as Hlen.
      destruct (length (8226%N :: s) - length (lstrip s))%nat eqn:Hn;
        [cbn [length] in Hn; lia|apply Hrepl'].
    + assert (Hkeep : 8226 ∉ c :: sub_from bullet_re repl (Some c) s 0).
      { intros Hin. apply elem_of_cons in Hin as [Hin | Hin]; [done|]. by apply IH in Hin. }
      destruct (re_match bullet_re prev (c :: s)) as [[rest cs]|]; [|done].
      destruct (length (c :: s) - length rest)%nat; [done|apply Hrepl'].
Qed.

Lemma collapse_elem (b : bool) (s : str) (c : char) :
  c ∈ collapse (u8 " ") b s -> c = 32 \/ c ∈ s.
Proof.
  revert b. induction s as [|d s IH]; intros b; cbn [collapse].
  - intros Hc. by apply elem_of_nil in Hc.
  - assert (Hrec : forall b', c ∈ collapse (u8 " ") b' s -> c = 32 \/ c ∈ d :: s).
    { intros b' Hc. destruct (IH b' Hc) as [-> | Hc']; [by left|].
      right. by apply elem_of_cons; right. }
    destruct (isspace d).
    + destruct b; [apply Hrec|].
      change (u8 " " ++ ?l) with (32 :: l). intros Hc.
      apply elem_of_cons in Hc as [-> | Hc]; [by left|by apply (Hrec true)].
    + intros Hc. apply elem_of_cons in Hc as [-> | Hc]; [|by apply (Hrec false)].
      right. by apply elem_of_cons; left.
Qed.

Lemma normalize_text_elem (text : str) (c : char) :
  c ∈ normalize_text text -> c = 32 \/ c ∈ text.
Proof.
  rewrite normalize_text_collapse. intros Hc. apply (collapse_elem false).
  destruct (strip_split (collapse (u8 " ") false text)) as (pre & post & -> & _ & _).
  apply elem_of_app. right. apply elem_of_app. by left.
Qed.

(** X8: the title and the body [process_html_file] returns are in the
    form of [normalize_text] (no whitespace at the ends, single spaces
    only), and the body holds no bullet glyph: each one was replaced. *)
Theorem processed_page_is_clean (content : list event) (date_obj : option date)
    (title body : str) :
  isspace 32 = true -> isspace 8226 = false ->
  process_html_file content = Ok (date_obj, title, body) ->
  tidy title /\ tidy body /\ 8226 ∉ body.
Proof.
  intros Hsp Hb. unfold process_html_file.
  destruct (parse_date_from_header _); [|discriminate].
  intros [= _ <- <-]. split; [by apply normalize_text_is_tidy|].
  split; [by apply normalize_text_is_tidy|].
  intros Hin. apply normalize_text_elem in Hin as [Hin | Hin]; [discriminate|].
  revert Hin. apply sub_bullets_no_bullet; [done|].
  apply (proj1 (bool_decide_eq_false _)). vm_compute. reflexivity.
Qed.

End Page.


Section Dates.
Context `{PyRuntime}.

Lemma rep_run {A} (p : char -> bool) (run : str) :
  forall lo hi prev rest (k : option char -> str -> option A) r,
    Forall (fun c => p c = true) run ->
    (lo <= length run)%nat ->
    match hi with Some h => (length run <= h)%nat | None => True end ->
    (hi = Some (length run) \/ match rest with c :: _ => p c = false | [] => True end) ->
    k (match last run with Some c => Some c | None => prev end) rest = Some r ->
    rep p lo hi prev (run ++ rest) k = Some r.
Proof.
  induction run as [|c run IH]; intros lo hi prev rest k r Hrun Hlo Hhi Hend Hk.
  - cbn [app]. assert (lo = 0%nat) as -> by (cbn [length] in Hlo; lia).
    cbn [last] in Hk. destruct rest as [|d rest]; cbn [rep]; [done|].
    destruct Hend as [-> | Hd]; [cbn [length more]; by rewrite andb_false_r|by rewrite Hd].
  - apply Forall_cons in Hrun as [Hc Hrun]. cbn [app rep]. rewrite Hc. cbn [andb].
    assert (Hmore : more hi = true).
    { destruct hi as [[|h]|]; cbn [length] in Hhi; [lia|done|done]. }
    rewrite Hmore.
    rewrite (IH (Nat.pred lo) (Nat.pred <$> hi) (Some c) rest k r); [reflexivity|done| | | |].
    + cbn [length] in Hlo. lia.
    + destruct hi as [h|]; cbn [fmap option_fmap option_map length] in *; [lia|done].
    + destruct Hend as [-> | Hd]; [left|by right]. done.
    + rewrite <- Hk. f_equal. destruct run as [|d run]; [done|].
      rewrite last_cons_cons.
      destruct (last (d :: run)) eqn:E; [done|by apply last_None in E].
Qed.

Lemma m_lit {A} (l : str) :
  forall prev rest cs (k : option char -> str -> caps -> option A),
    m (lit l) prev (l ++ rest) cs k
    = k (match last l with Some c => Some c | None => prev end) rest cs.
Proof.
  induction l as [|c l IH]; intros prev rest cs k; [done|].
  cbn [lit foldr app]. fold (lit l). cbn [m]. unfold chr at 1. cbn [m].
  rewrite N.eqb_refl, IH. f_equal. destruct l as [|d l]; [done|].
  rewrite last_cons_cons.
  destruct (last (d :: l)) eqn:E; [done|by apply last_None in E].
Qed.


Lemma take_run (run rest : str) : take (length (run ++ rest) - length rest) (run ++ rest) = run.
Proof. rewrite length_app, Nat.add_sub. apply take_app_length. Qed.

Lemma re_match_date (prev : option char) (ds name ys : str) :
  is_digit 32 = false ->
  Forall (fun c => is_digit c = true) ds -> (1 <= length ds <= 2)%nat ->
  Forall (fun c => month_letter c = true) name -> (1 <= length name)%nat ->
  Forall (fun c => is_digit c = true) ys -> length ys = 4%nat ->
  re_match date_re prev (ds ++ u8 " de " ++ name ++ u8 " de " ++ ys)
  = Some ([], [(3%nat, ys); (2%nat, name); (1%nat, ds)]).
Proof.
  intros Hsp Hds Hlds Hname Hlname Hys Hlys. unfold re_match, date_re. cbn [m].
  change (u8 " de ") with [32; 100; 101; 32].
  apply rep_run; [done|lia|cbn; lia|by right|].
  rewrite take_run, m_lit.
  apply rep_run; [done|lia|done|by right|].
  rewrite take_run, m_lit.
  match goal with
  | |- rep ?p ?lo ?hi ?pv ys ?k = Some ?r =>
    pose proof (rep_run p ys lo hi pv [] k r) as Hrep
  end.
  rewrite app_nil_r in Hrep. apply Hrep; [done|lia|lia|left; by rewrite Hlys|].
  cbn [length]. by rewrite Nat.sub_0_r, take_ge.
Qed.


Lemma re_match_date_no_digit (prev : option char) (s : str) :
  match s with c :: _ => is_digit c = false | [] => True end ->
  re_match date_re prev s = None.
Proof.
  intros Hs. unfold re_match, date_re. cbn [m]. destruct s as [|c s]; cbn [rep]; [done|].
  by rewrite Hs.
Qed.

Lemma search_date_skip (pre core : str) :
  Forall (fun c => is_digit c = false) pre ->
  forall prev,
    search_from date_re prev (pre ++ core)
    = search_from date_re (match last pre with Some c => Some c | None => prev end) core.
Proof.
  induction pre as [|c pre IH]; intros Hpre prev; [done|].
  apply Forall_cons in Hpre as [Hc Hpre]. cbn [app search_from].
  rewrite re_match_date_no_digit by done. rewrite IH by done. f_equal.
  destruct pre as [|d pre]; [done|]. rewrite last_cons_cons.
  destruct (last (d :: pre)) eqn:E; [done|by apply last_None in E].
Qed.

Lemma search_date_no_digit (s : str) :
  Forall (fun c => is_digit c = false) s -> re_search date_re s = None.
Proof.
  intros Hs. unfold re_search. rewrite <- (app_nil_r s), search_date_skip by done.
  done.
Qed.

(** X9: a header text without a decimal digit has no date: the result is
    [None], without an exception. *)
Theorem header_without_digit_is_unresolved (header_text : str) :
  Forall (fun c => is_digit c = false) (lower (strip header_text)) ->
  parse_date_from_header header_text = Ok None.
Proof.
  intros Hs. unfold parse_date_from_header. by rewrite search_date_no_digit.
Qed.

Lemma dt_date_valid (y mo d : N) (date_obj : date) :
  dt_date y mo d = Ok date_obj ->
  date_obj = mk_date y mo d
  /\ 1 <= y <= 9999 /\ 1 <= mo <= 12 /\ 1 <= d <= days_in_month y mo.
Proof.
  unfold dt_date. destruct (_ && _) eqn:Hok; [|discriminate]. intros [= <-].
  repeat (apply andb_prop in Hok as [Hok ?]).
  repeat match goal with Hle : (_ <=? _) = true |- _ => apply N.leb_le in Hle end.
  done.
Qed.

(** X10: a date [parse_date_from_header] returns is a day of the
    calendar: the year is between 1 and 9999, the month between 1 and 12
    and the day within the month; the only exception it raises is
    [ValueError]. *)
Theorem parse_date_from_header_result (header_text : str) :
  match parse_date_from_header header_text with
  | Ok (Some date_obj) =>
    1 <= year date_obj <= 9999 /\ 1 <= month date_obj <= 12
    /\ 1 <= day date_obj <= days_in_month (year date_obj) (month date_obj)
  | Ok None => True
  | Raise e => e = ValueError
  end.
Proof.
  unfold parse_date_from_header.
  destruct (re_search date_re _) as [mt|]; [|done].
  destruct (dict_get _ PORTUGUESE_MONTHS) as [mo|]; [|done].
  destruct (mo =? 0); [done|].
  destruct (dt_date _ mo _) as [date_obj | e] eqn:Hd; cbn [py_map].
  - apply dt_date_valid in Hd as (-> & ? & ? & ?). done.
  - unfold dt_date in Hd. by destruct (_ && _); simplify_eq.
Qed.

Lemma search_from_match (r : re) (prev : option char) (s rest : str) (cs : caps) :
  re_match r prev s = Some (rest, cs) -> search_from r prev s = Some cs.
Proof. intros Hm. destruct s; cbn [search_from]; by rewrite Hm. Qed.

(** The date read from a lowered header [pre ++ ds de name de ys]. *)
Lemma parse_written_date (header_text pre ds name ys : str) (mo : N) (date_obj : date) :
  lower (strip header_text) = pre ++ ds ++ u8 " de " ++ name ++ u8 " de " ++ ys ->
  Forall (fun c => is_digit c = false) pre ->
  is_digit 32 = false ->
  Forall (fun c => is_digit c = true) ds -> (1 <= length ds <= 2)%nat ->
  Forall (fun c => month_letter c = true) name -> (1 <= length name)%nat ->
  Forall (fun c => is_digit c = true) ys -> length ys = 4%nat ->
  dict_get (replace_chr 231 (u8 "c") name) PORTUGUESE_MONTHS = Some mo -> mo <> 0 ->
  dt_date (int_of ys) mo (int_of ds) = Ok date_obj ->
  parse_date_from_header header_text = Ok (Some date_obj).
Proof.
  intros Heq Hpre Hsp Hds Hlds Hname Hlname Hys Hlys Hget Hmo Hdate.
  unfold parse_date_from_header. rewrite Heq. unfold re_search.
  rewrite search_date_skip by done.
  erewrite search_from_match by (by apply re_match_date).
  cbn [group Nat.eqb]. rewrite Hget.
  destruct (mo =? 0) eqn:Hz; [by apply N.eqb_eq in Hz|].
  by rewrite Hdate.
Qed.

Lemma lstrip_app_visible (pre core : str) :
  core <> [] -> (forall c, head core = Some c -> isspace c = false) ->
  lstrip (pre ++ core) = lstrip pre ++ core.
Proof.
  intros Hne Hhead. induction pre as [|c pre IH]; cbn [app lstrip].
  - by apply lstrip_id.
  - by destruct (isspace c).
Qed.

Lemma strip_app_visible (pre core : str) :
  core <> [] -> (forall c, head core = Some c -> isspace c = false) ->
  (forall c, last core = Some c -> isspace c = false) ->
  strip (pre ++ core) = lstrip pre ++ core.
Proof.
  intros Hne Hhead Hlast. unfold strip. rewrite lstrip_app_visible by done.
  rewrite lstrip_id; [apply rev_involutive|].
  intros c. rewrite head_rev. destruct core as [|x core]; [done|].
  rewrite last_app_cons. apply Hlast.
Qed.

End Dates.


Section Keys.
Context `{PyRuntime}.

Lemma weekday_name_length (d : date) :
  length (nth (N.to_nat (weekday d)) WEEKDAYS_EN []) = 3%nat.
Proof.
  unfold weekday. pose proof (N.mod_upper_bound (toordinal d + 6) 7) as Hlt.
  assert (Hn : (N.to_nat ((toordinal d + 6) mod 7) < 7)%nat) by lia.
  destruct (N.to_nat ((toordinal d + 6) mod 7)) as [|[|[|[|[|[|[|n]]]]]]]; try done; lia.
Qed.

Lemma take_10_date (Y W M t1 t2 : str) :
  length Y = 4%nat -> length W = 3%nat ->
  take 10 (Y ++ 32 :: W ++ 32 :: M ++ 32 :: t1) = take 10 (Y ++ 32 :: W ++ 32 :: M ++ 32 :: t2).
Proof.
  intros HY HW.
  destruct Y as [|a [|b [|c [|d [|? ?]]]]]; try discriminate.
  destruct W as [|e [|f [|g [|? ?]]]]; try discriminate.
  by destruct M.
Qed.

(** The first ten characters of a formatted date leave the day out. *)
Lemma format_date_prefix (d1 d2 : date) (time_str s1 s2 : str) :
  year d1 = year d2 -> month d1 = month d2 -> weekday d1 = weekday d2 ->
  length (strftime_Y (year d1)) = 4%nat ->
  format_date_for_csv d1 time_str = Ok s1 ->
  format_date_for_csv d2 time_str = Ok s2 ->
  take 10 s1 = take 10 s2.
Proof.
  intros Hy Hm Hw Hlen. unfold format_date_for_csv.
  destruct (strptime_IMp (strip time_str)) as [[hh mm]|]; [|discriminate].
  intros [= <-] [= <-]. rewrite <- Hy, <- Hm, <- Hw.
  change (u8 " ") with [32]. cbn [app].
  apply take_10_date; [done|apply weekday_name_length].
Qed.

(** X12: the date part of the dedup key holds the year, the weekday and
    the first letter of the month, not the day: two pages with the same
    title and body whose dates fall on the same weekday of the same month
    and year have the same key. *)
Theorem same_weekday_same_key (a : args) (content1 content2 : list event)
    (d1 d2 : date) (title body : str) :
  process_html_file content1 = Ok (Some d1, title, body) ->
  process_html_file content2 = Ok (Some d2, title, body) ->
  year d1 = year d2 -> month d1 = month d2 -> weekday d1 = weekday d2 ->
  length (strftime_Y (year d1)) = 4%nat ->
  entry_key a content1 = entry_key a content2.
Proof.
  intros Hc1 Hc2 Hy Hm Hw Hlen. unfold entry_key. rewrite Hc1, Hc2.
  destruct (nonempty_list body); cbn [negb]; [|done].
  destruct (format_date_for_csv d1 (time a)) as [s1|e1] eqn:H1,
           (format_date_for_csv d2 (time a)) as [s2|e2] eqn:H2.
  - by rewrite (format_date_prefix d1 d2 (time a) s1 s2).
  - unfold format_date_for_csv in H1, H2.
    destruct (strptime_IMp (strip (time a))) as [[hh mm]|]; discriminate.
  - unfold format_date_for_csv in H1, H2.
    destruct (strptime_IMp (strip (time a))) as [[hh mm]|]; discriminate.
  - done.
Qed.

End Keys.

Section Moods.
Context `{PyRuntime}.

Lemma elem_of_concat {A} (x : A) (ls : list (list A)) :
  x ∈ concat ls <-> exists l, x ∈ l /\ l ∈ ls.
Proof.
  induction ls as [|l ls IH]; cbn [concat].
  - split; [intros Hx; by apply elem_of_nil in Hx|intros (l & _ & Hl); by apply elem_of_nil in Hl].
  - rewrite elem_of_app, IH. split.
    + intros [Hx | (l' & Hx & Hl)]; [exists l; split; [done|by apply elem_of_cons; left]|].
      exists l'. split; [done|by apply elem_of_cons; right].
    + intros (l' & Hx & Hl). apply elem_of_cons in Hl as [-> | Hl]; [by left|].
      right. by exists l'.
Qed.

Lemma append_if_elem (text_l : str) (rule : re * list str) (mp : list (list str))
    (prefs : list str) :
  prefs ∈ append_if text_l rule mp -> prefs ∈ mp \/ prefs = snd rule.
Proof.
  unfold append_if. destruct (found _ _); [|by left].
  intros Hp. apply elem_of_app in Hp as [Hp | Hp]; [by left|].
  apply list_elem_of_singleton in Hp. by right.
Qed.

Lemma mood_preferences_elem (text_l : str) (prefs : list str) :
  prefs ∈ mood_preferences text_l -> prefs ∈ map snd mood_rules.
Proof.
  unfold mood_preferences. intros Hp.
  repeat (apply append_if_elem in Hp as [Hp | ->];
          [|apply (bool_decide_unpack _); vm_compute; exact I]).
  by apply elem_of_nil in Hp.
Qed.

Lemma mood_preferences_none (text_l : str) :
  Forall (fun rule => found (fst rule) text_l = false) mood_rules ->
  mood_preferences text_l = [].
Proof.
  intros Hall. unfold mood_rules in Hall.
  repeat (apply Forall_cons in Hall as [? Hall]).
  unfold mood_preferences, append_if. by repeat case_match; simplify_eq.
Qed.

Lemma scan_prefs_elem prefs mood_pool chosen (m : str) :
  m ∈ scan_prefs prefs mood_pool chosen -> m ∈ chosen \/ m ∈ prefs.
Proof.
  destruct (scan_prefs_cases prefs mood_pool chosen) as [-> | (x & Hx & _ & _ & ->)];
    [by left|].
  intros Hm. apply elem_of_app in Hm as [Hm | Hm]; [by left|].
  apply list_elem_of_singleton in Hm. subst. by right.
Qed.

Lemma scan_categories_elem prefss mood_pool chosen (m : str) :
  m ∈ scan_categories prefss mood_pool chosen -> m ∈ chosen \/ m ∈ concat prefss.
Proof.
  revert chosen. induction prefss as [|prefs rest IH]; intros chosen; cbn [scan_categories];
    [by left|].
  assert (Hstep : m ∈ scan_prefs prefs mood_pool chosen ->
                  m ∈ chosen \/ m ∈ concat (prefs :: rest)).
  { intros Hm. apply scan_prefs_elem in Hm as [Hm | Hm]; [by left|].
    right. cbn [concat]. apply elem_of_app. by left. }
  destruct (2 <=? _)%nat; [done|].
  intros Hm. apply IH in Hm as [Hm | Hm]; [by apply Hstep|].
  right. cbn [concat]. apply elem_of_app. by right.
Qed.

Lemma scan_fallbacks_first fallbacks mood_pool :
  scan_fallbacks fallbacks mood_pool []
  = match head (filter (fun f => f ∈ mood_pool) fallbacks) with
    | Some f => [f]
    | None => []
    end.
Proof.
  induction fallbacks as [|f rest IH]; [done|]. cbn [scan_fallbacks].
  rewrite filter_cons. case_bool_decide.
  - by rewrite decide_True.
  - by rewrite decide_False.
Qed.

Lemma scan_fallbacks_elem fallbacks mood_pool chosen (m : str) :
  m ∈ scan_fallbacks fallbacks mood_pool chosen -> m ∈ chosen \/ m ∈ fallbacks.
Proof.
  induction fallbacks as [|f rest IH]; cbn [scan_fallbacks]; [by left|].
  case_bool_decide.
  - intros Hm. apply list_elem_of_singleton in Hm. subst. right. by apply elem_of_cons; left.
  - intros Hm. apply IH in Hm as [Hm | Hm]; [by left|]. right. by apply elem_of_cons; right.
Qed.

(** X13: when none of the seven patterns is found in the lowered text,
    the result is the empty string if the fallback is not allowed, and
    else the first label of the neutral list that is in the pool (the
    empty string if none is). *)
Theorem choose_mood_without_match (text : str) (mood_pool : gset str) :
  Forall (fun rule => found (fst rule) (lower text) = false) mood_rules ->
  choose_mood text mood_pool false = []
  /\ choose_mood text mood_pool true
     = default [] (head (filter (fun f => f ∈ mood_pool) FALLBACKS)).
Proof.
  intros Hnone. unfold choose_mood, choose_mood_chosen.
  rewrite mood_preferences_none by done. cbn [scan_categories andb negb nonempty_list].
  split; [done|]. rewrite scan_fallbacks_first.
  by destruct (head _) as [f|].
Qed.

Lemma choose_mood_chosen_vocabulary text mood_pool allow_fallback (m : str) :
  m ∈ choose_mood_chosen text mood_pool allow_fallback -> m ∈ vocabulary.
Proof.
  unfold choose_mood_chosen, vocabulary.
  assert (Hcat : forall x, x ∈ scan_categories (mood_preferences (lower text)) mood_pool []
                           -> x ∈ concat (map snd mood_rules)).
  { intros x Hx. apply scan_categories_elem in Hx as [Hx | Hx]; [by apply elem_of_nil in Hx|].
    apply elem_of_concat in Hx as (prefs & Hx & Hp).
    apply elem_of_concat. exists prefs. split; [done|]. by apply mood_preferences_elem in Hp. }
  destruct (allow_fallback && _).
  - intros Hm. apply scan_fallbacks_elem in Hm as [Hm | Hm]; apply elem_of_app;
      [left; by apply Hcat|by right].
  - intros Hm. apply elem_of_app. left. by apply Hcat.
Qed.

(** X14: the heuristic tier names labels of its fixed vocabulary only
    (the candidates of the seven rules and the neutral list); with a pool
    that holds none of them, the empty pool included, its result is the
    empty string. *)
Theorem choose_mood_names_its_vocabulary (text : str) (mood_pool : gset str)
    (allow_fallback : bool) :
  Forall (fun m => m ∈ vocabulary) (choose_mood_chosen text mood_pool allow_fallback)
  /\ ((forall m, m ∈ vocabulary -> m ∉ mood_pool) ->
      choose_mood text mood_pool allow_fallback = []).
Proof.
  split.
  - apply Forall_forall. intros m. apply choose_mood_chosen_vocabulary.
  - intros Hdisjoint. rewrite choose_mood_join.
    destruct (choose_mood_chosen text mood_pool allow_fallback) as [|m rest] eqn:Hc; [done|].
    exfalso. apply (Hdisjoint m).
    + apply (choose_mood_chosen_vocabulary text mood_pool allow_fallback).
      rewrite Hc. by apply elem_of_cons; left.
    + destruct (choose_mood_chosen_ok text mood_pool allow_fallback) as (_ & _ & Hin).
      apply Hin. rewrite Hc. by apply elem_of_cons; left.
Qed.

End Moods.

Section Pool.
Context `{PyRuntime}.

Lemma split_chr_cons (sep c : char) (s : str) :
  split_chr sep (c :: s)
  = if c =? sep then [] :: split_chr sep s
    else match split_chr sep s with
         | [] => [[c]]
         | p :: ps => (c :: p) :: ps
         end.
Proof. reflexivity. Qed.


Lemma split_chr_whole (sep : char) (a : str) : sep ∉ a -> split_chr sep a = [a].
Proof.
  induction a as [|c a IH]; intros Ha; [done|]. rewrite split_chr_cons.
  destruct (N.eqb_spec c sep) as [-> | Hc]; [exfalso; apply Ha; by apply elem_of_cons; left|].
  rewrite IH; [done|]. intros Hin. apply Ha. by apply elem_of_cons; right.
Qed.



Lemma split_chr_parts (sep : char) (s p : str) : p ∈ split_chr sep s -> sep ∉ p.
Proof.
  revert p. induction s as [|c s IH]; intros p.
  - cbn [split_chr]. intros Hp. apply list_elem_of_singleton in Hp. subst.
    apply not_elem_of_nil.
  - rewrite split_chr_cons. destruct (N.eqb_spec c sep) as [-> | Hc].
    + intros Hp. apply elem_of_cons in Hp as [-> | Hp]; [apply not_elem_of_nil|by apply IH].
    + destruct (split_chr sep s) as [|q qs] eqn:Hs.
      * intros Hp. apply list_elem_of_singleton in Hp. subst.
        intros Hin. apply list_elem_of_singleton in Hin. done.
      * intros Hp. apply elem_of_cons in Hp as [-> | Hp].
        -- intros Hin. apply elem_of_cons in Hin as [Hin | Hin]; [done|].
           revert Hin. apply IH. by apply elem_of_cons; left.
        -- apply IH. by apply elem_of_cons; right.
Qed.

Lemma strip_elem (s : str) (c : char) : c ∈ strip s -> c ∈ s.
Proof.
  intros Hc. destruct (strip_split s) as (pre & post & -> & _ & _).
  apply elem_of_app. right. apply elem_of_app. by left.
Qed.







(** X16: every label [load_existing_moods] finds is clean: not empty,
    without [;] and without whitespace at its ends; a missing store and a
    store without rows give no label. *)
Theorem load_existing_moods_clean (csv : store) :
  (forall m, m ∈ load_existing_moods csv -> clean_label m)
  /\ load_existing_moods None = ∅
  /\ load_existing_moods (Some []) = ∅.
Proof.
  split; [|done]. intros m Hm. unfold load_existing_moods in Hm.
  apply elem_of_list_to_set, elem_of_concat in Hm as (ms & Hm & Hms).
  apply list_elem_of_fmap in Hms as (r & -> & _).
  unfold row_moods in Hm. destruct r as [|? [|field ?]]; try by apply elem_of_nil in Hm.
  destruct (nonempty_list (strip field)); cbn [negb] in Hm; [|by apply elem_of_nil in Hm].
  unfold stripped_parts in Hm. apply list_elem_of_filter in Hm as [Hne Hm].
  apply list_elem_of_fmap in Hm as (p & -> & Hp). apply split_chr_parts in Hp.
  split; [by destruct (strip p)|]. split; [|apply strip_strip].
  intros Hin. by apply strip_elem in Hin.
Qed.

(** X17: the mood pool holds exactly the labels of the store and the
    lines of the supplementary list, stripped, that are neither empty nor
    comments. *)
Theorem mood_pool_members (csv : store) (lines : list str) (m : str) :
  m ∈ build_mood_pool (load_existing_moods csv) (load_moods_file (Some lines))
  <-> m ∈ load_existing_moods csv
      \/ exists line, line ∈ lines /\ m = strip line /\ m <> []
                      /\ startswith m (u8 "#") = false.
Proof.
  assert (Hpool : forall (existing : gset str) extra,
            m ∈ build_mood_pool existing extra <-> m ∈ existing \/ m ∈ extra).
  { intros existing extra. unfold build_mood_pool.
    destruct extra as [|x extra]; cbn [nonempty_list].
    - split; [by left|]. intros [Hm | Hm]; [done|by apply elem_of_nil in Hm].
    - generalize (x :: extra). clear x extra. intros extra. revert existing.
      induction extra as [|x extra IH]; intros existing; cbn [foldl].
      + split; [by left|]. intros [Hm | Hm]; [done|by apply elem_of_nil in Hm].
      + rewrite IH, elem_of_union, elem_of_singleton, elem_of_cons. tauto. }
  rewrite Hpool. unfold load_moods_file.
  rewrite list_elem_of_filter, list_elem_of_fmap.
  split; (intros [Hm | Hm]; [by left|right]).
  - destruct Hm as (Hok & line & -> & Hline). exists line.
    apply Is_true_true, andb_prop in Hok as [Hne Hhash].
    split; [done|]. split; [done|]. split; [by destruct (strip line)|].
    by apply negb_true_iff.
  - destruct Hm as (line & Hline & -> & Hne & Hhash). split; [|by exists line].
    apply Is_true_true. rewrite Hhash. by destruct (strip line).
Qed.

End Pool.


(** ** The remote classifier *)

Section Remote.
Context `{PyRuntime}.

(** X18: when the credential and the pool are not empty, one call of
    [llm_choose_mood] sends exactly one request, whatever the answer: the
    POST of the prompt with a timeout of 30 seconds.  The text enters the
    request with its first 2000 characters only. *)
Theorem llm_sends_one_request (text : str) (existing_moods : gset str)
    (model api_key : str) (max_moods : Z)
    (net : nat -> request -> response) (sent : list request) :
  api_key <> [] -> existing_moods <> ∅ ->
  let req := llm_request model api_key
               (llm_prompt max_moods (sorted (elements existing_moods)) (take 2000 text)) in
  snd (run net (llm_choose_mood text existing_moods model api_key max_moods) sent)
  = sent ++ [req]
  /\ req_timeout req = 30 /\ req_method req = u8 "POST"
  /\ forall text', take 2000 text' = take 2000 text ->
       llm_choose_mood text' existing_moods model api_key max_moods
       = llm_choose_mood text existing_moods model api_key max_moods.
Proof.
  intros Hkey Hpool req. split; [|split; [done|split; [done|]]].
  - unfold llm_choose_mood. destruct api_key as [|c k]; [done|]. cbn [nonempty_list negb].
    rewrite bool_decide_eq_false_2 by done. cbn [run]. fold req.
    destruct (net (length sent) req) as [e | data].
    + by destruct (caught e).
    + destruct (output_text data) as [raw_text | e]; [|done].
      by destruct (negb _).
  - intros text' Htext. unfold llm_choose_mood. by rewrite Htext.
Qed.

Lemma scan_parts_keeps_good (parts : list str) (d : gmap str str) mood_pool max_moods chosen :
  (forall k v, d !! k = Some v -> v ∈ mood_pool) ->
  good mood_pool chosen ->
  good mood_pool (scan_parts parts d max_moods chosen).
Proof.
  intros Hd. revert chosen.
  induction parts as [|part rest IH]; intros chosen Hgood; cbn [scan_parts]; [done|].
  destruct (nonempty_list (strip part)); cbn [negb]; [|by apply IH].
  set (chosen' := match d !! lower (strip part) with
                  | Some normalized =>
                    if nonempty_list normalized && negb (str_in normalized chosen)
                    then chosen ++ [normalized] else chosen
                  | None => chosen
                  end).
  assert (Hc : good mood_pool chosen').
  { subst chosen'. destruct (d !! lower (strip part)) as [v|] eqn:Hv; [|done].
    destruct (nonempty_list v); cbn [andb]; [|done].
    unfold str_in. case_bool_decide as Hfresh; cbn [negb]; [done|].
    apply good_snoc; eauto. }
  destruct (_ <=? _)%Z; [done|]. by apply IH.
Qed.

Lemma scan_parts_cap (parts : list str) (d : gmap str str) (max_moods : Z) chosen :
  (Z.of_nat (length chosen) < max_moods)%Z \/ chosen = [] ->
  (Z.of_nat (length (scan_parts parts d max_moods chosen)) <= Z.max 1 max_moods)%Z.
Proof.
  revert chosen. induction parts as [|part rest IH]; intros chosen Hlen; cbn [scan_parts].
  - destruct Hlen as [Hlen | ->]; cbn [length]; lia.
  - destruct (nonempty_list (strip part)); cbn [negb]; [|by apply IH].
    set (chosen' := match d !! lower (strip part) with
                    | Some normalized =>
                      if nonempty_list normalized && negb (str_in normalized chosen)
                      then chosen ++ [normalized] else chosen
                    | None => chosen
                    end).
    assert (Hc : (length chosen' <= S (length chosen))%nat).
    { subst chosen'. destruct (d !! _); [|lia].
      destruct (_ && _); [rewrite length_app; cbn [length]|]; lia. }
    destruct (max_moods <=? Z.of_nat (length chosen'))%Z eqn:Hcap.
    + destruct Hlen as [Hlen | ->]; cbn [length] in *; lia.
    + apply Z.leb_gt in Hcap. apply IH. by left.
Qed.

(** X19: for any cap [max_moods], the labels the remote tier takes from an
    answer are pairwise distinct labels of the pool, and at most
    [max(1, max_moods)] of them. *)
Theorem llm_chosen_within_cap (raw_text : str) (existing_moods : gset str) (max_moods : Z) :
  let chosen := llm_chosen raw_text existing_moods max_moods in
  (Z.of_nat (length chosen) <= Z.max 1 max_moods)%Z
  /\ NoDup chosen
  /\ forall m, m ∈ chosen -> m ∈ existing_moods.
Proof.
  unfold llm_chosen. split; [apply scan_parts_cap; by right|].
  apply scan_parts_keeps_good; [apply lower_map_pool|apply good_nil].
Qed.

Lemma insert_sorted_elem_of {A} (key : A -> str) (x a : A) (l : list A) :
  x = a \/ x ∈ l -> x ∈ insert_sorted key a l.
Proof.
  induction l as [|y l IH]; cbn [insert_sorted].
  - intros [-> | Hx]; [by apply list_elem_of_singleton|by apply elem_of_nil in Hx].
  - destruct (str_leb _ _).
    + intros [-> | Hx]; [by apply elem_of_cons; left|by apply elem_of_cons; right].
    + intros [-> | Hx]; [apply elem_of_cons; right; apply IH; by left|].
      apply elem_of_cons in Hx as [-> | Hx]; [by apply elem_of_cons; left|].
      apply elem_of_cons; right. apply IH. by right.
Qed.

Lemma sorted_by_elem_of {A} (key : A -> str) (x : A) (l : list A) :
  x ∈ l -> x ∈ sorted_by key l.
Proof.
  unfold sorted_by. induction l as [|a l IH]; [done|]. cbn [foldr].
  intros Hx. apply insert_sorted_elem_of.
  apply elem_of_cons in Hx as [-> | Hx]; [by left|right; by apply IH].
Qed.

Lemma lower_map_lookup (moods : list str) (m : str) :
  (forall m', m' ∈ moods -> lower m' = lower m -> m' = m) ->
  forall d : gmap str str,
    m ∈ moods \/ d !! lower m = Some m ->
    foldl (fun d mood => <[lower mood := mood]> d) d moods !! lower m = Some m.
Proof.
  induction moods as [|x moods IH]; intros Huniq d Hm; cbn [foldl].
  - destruct Hm as [Hm | Hm]; [by apply elem_of_nil in Hm|done].
  - apply IH.
    + intros m' Hm'. apply Huniq. by apply elem_of_cons; right.
    + destruct (decide (lower x = lower m)) as [Hx | Hx].
      * right. rewrite Hx. rewrite (Huniq x); [apply lookup_insert_eq| |done].
        by apply elem_of_cons; left.
      * destruct Hm as [Hm | Hm].
        -- apply elem_of_cons in Hm as [-> | Hm]; [done|by left].
        -- right. by rewrite lookup_insert_ne.
Qed.

(** X20: an answer that names one label of the pool, in any letter case
    and with whitespace around it, gives that label as the pool spells it,
    provided no other label of the pool has the same lower-case form. *)
Theorem llm_answer_matched_ignoring_case (text : str) (existing_moods : gset str)
    (model api_key : str) (max_moods : Z) (data : json) (raw_text m : str)
    (sent : list request) :
  api_key <> [] -> m ∈ existing_moods -> m <> [] ->
  output_text data = Ok raw_text ->
  59 ∉ raw_text -> strip raw_text <> [] -> lower (strip raw_text) = lower m ->
  (forall m', m' ∈ existing_moods -> lower m' = lower m -> m' = m) ->
  fst (run (always (Loads data))
           (llm_choose_mood text existing_moods model api_key max_moods) sent) = Ok m.
Proof.
  intros Hkey Hm Hne Hdata Hsemi Hraw Hlow Huniq.
  unfold llm_choose_mood. destruct api_key as [|c k]; [done|]. cbn [nonempty_list negb].
  rewrite bool_decide_eq_false_2 by (intros Hempty; rewrite Hempty in Hm;
                                     by apply not_elem_of_empty in Hm).
  cbn [run]. unfold always. cbn beta iota. rewrite Hdata.
  assert (Hss : strip (strip raw_text) = strip raw_text) by apply strip_strip.
  assert (Hin : 59 ∉ strip raw_text) by (intros Hin; by apply strip_elem in Hin).
  destruct (strip raw_text) as [|c0 r0]; [done|]. cbn [nonempty_list negb run fst].
  f_equal. unfold llm_chosen.
  rewrite split_chr_whole by done.
  cbn [scan_parts]. rewrite Hss. cbn [nonempty_list negb]. rewrite Hlow.
  unfold lower_map. rewrite lower_map_lookup.
  - destruct m as [|c1 r1]; [done|]. cbn [nonempty_list andb str_in].
    unfold str_in. rewrite bool_decide_eq_false_2 by apply not_elem_of_nil.
    cbn [negb app]. by destruct (_ <=? _)%Z.
  - intros m' Hm'. apply Huniq. apply sorted_by_elem in Hm'. by apply elem_of_elements in Hm'.
  - left. apply sorted_by_elem_of. by apply elem_of_elements.
Qed.

End Remote.


(** ** The run *)

Section Run.
Context `{PyRuntime}.

Lemma llm_result_ok (net : nat -> request -> response) text mood_pool model api_key
    sent result sent' :
  run net (llm_choose_mood text mood_pool model api_key 2) sent = (Ok result, sent') ->
  result_ok mood_pool result.
Proof.
  unfold llm_choose_mood.
  destruct (nonempty_list api_key); cbn [negb].
  2:{ cbn [run]. intros Hr. injection Hr as <- _. apply result_ok_empty. }
  case_bool_decide.
  { cbn [run]. intros Hr. injection Hr as <- _. apply result_ok_empty. }
  cbn [run]. destruct (net _ _) as [e | data].
  - destruct (caught e); cbn [run]; intros Hr; [|discriminate].
    injection Hr as <- _. apply result_ok_empty.
  - destruct (output_text data) as [raw_text | e]; cbn [run]; [|discriminate].
    destruct (nonempty_list (strip raw_text)); cbn [negb run]; intros Hr;
      injection Hr as <- _; [|apply result_ok_empty].
    eexists. split; [reflexivity|apply llm_chosen_ok].
Qed.

Lemma llm_requests (net : nat -> request -> response) text mood_pool model api_key
    max_moods sent :
  exists reqs,
    snd (run net (llm_choose_mood text mood_pool model api_key max_moods) sent) = sent ++ reqs
    /\ (length reqs <= 1)%nat
    /\ Forall (fun req => api_key <> []
                          /\ exists prompt, req = llm_request model api_key prompt) reqs.
Proof.
  unfold llm_choose_mood.
  destruct api_key as [|c k]; cbn [nonempty_list negb].
  { exists []. cbn [run snd]. rewrite app_nil_r. split; [done|split; [cbn; lia|constructor]]. }
  case_bool_decide.
  { exists []. cbn [run snd]. rewrite app_nil_r. split; [done|split; [cbn; lia|constructor]]. }
  eexists [_]. split; [|split; [cbn; lia|]].
  - cbn [run]. destruct (net _ _) as [e | data].
    + destruct (caught e); reflexivity.
    + destruct (output_text data) as [raw_text | e]; [|reflexivity].
      destruct (negb _); reflexivity.
  - constructor; [|constructor]. split; [done|]. eexists. reflexivity.
Qed.

Lemma choose_mood_result_ok text mood_pool allow_fallback :
  result_ok mood_pool (choose_mood text mood_pool allow_fallback).
Proof.
  exists (choose_mood_chosen text mood_pool allow_fallback).
  split; [apply choose_mood_join|apply choose_mood_chosen_ok].
Qed.

Lemma normalize_text_stripped (text : str) : strip (normalize_text text) = normalize_text text.
Proof. unfold normalize_text. apply strip_strip. Qed.

Lemma split_sentences_stripped (text : str) :
  Forall (fun s => s <> [] /\ strip s = s) (split_sentences text).
Proof.
  unfold split_sentences. apply Forall_forall. intros s Hs.
  apply list_elem_of_fmap in Hs as (p & -> & Hp).
  apply list_elem_of_filter in Hp as [Hp _].
  split; [|apply strip_strip].
  by destruct (strip p).
Qed.

Lemma notes_of_stripped (title body : str) :
  strip title = title -> strip body = body -> body <> [] ->
  notes_of title body <> [] /\ strip (notes_of title body) = notes_of title body.
Proof.
  intros Ht Hb Hne. unfold notes_of.
  destruct title as [|c t]; cbn [nonempty_list].
  - pose proof (split_sentences_stripped body) as Hs.
    destruct (split_sentences body) as [|s ss]; [done|].
    by apply Forall_cons in Hs as [Hs _].
  - done.
Qed.

Lemma process_html_file_stripped (content : list event) date_obj (title body : str) :
  process_html_file content = Ok (date_obj, title, body) ->
  strip title = title /\ strip body = body.
Proof.
  unfold process_html_file.
  destruct (parse_date_from_header _); [|discriminate].
  intros Hr. injection Hr as _ <- <-. split; apply normalize_text_stripped.
Qed.

(** What a page gives when [main] accepts it. *)
Lemma process_entry_accepted (net : nat -> request -> response) a mood_pool existing_keys
    api_key content sent r sent' :
  run net (process_entry a mood_pool existing_keys api_key content) sent
  = (Ok (Some r), sent') ->
  exists date_obj title body date_str mood,
    process_html_file content = Ok (Some date_obj, title, body)
    /\ body <> []
    /\ format_date_for_csv date_obj (time a) = Ok date_str
    /\ result_ok mood_pool mood
    /\ r = build_row date_str mood (notes_of title body) body (extract_takeaway body).
Proof.
  unfold process_entry. rewrite run_bind.
  destruct (process_html_file content) as [[[date_obj title] body] | e] eqn:Hpage;
    cbn [lift run]; [|discriminate].
  destruct date_obj as [date_obj|]; cbn [run]; [|discriminate].
  destruct body as [|b body]; cbn [nonempty_list negb run]; [discriminate|].
  rewrite run_bind.
  destruct (format_date_for_csv date_obj (time a)) as [date_str | e] eqn:Hdate;
    cbn [lift run]; [|discriminate].
  rewrite run_bind.
  destruct (run net _ sent) as [[mood | e] sent1] eqn:Hmood; [|discriminate].
  assert (Hok : result_ok mood_pool mood).
  { destruct (negb (nonempty_list (choose_mood _ _ _)) && negb (llm_off a)).
    - by apply llm_result_ok in Hmood.
    - cbn [run] in Hmood. injection Hmood as <- _. apply choose_mood_result_ok. }
  destruct (negb (force a) && _); cbn [run]; intros Hr; [discriminate|].
  injection Hr as <- _.
  exists date_obj, title, (b :: body), date_str, mood. split_and!; done.
Qed.

Lemma from_page_cons a mood_pool file files r :
  from_page a mood_pool files r -> from_page a mood_pool (file :: files) r.
Proof.
  intros (H1 & H2 & H3 & H4 & H5 & H6 & H7 & H8 & f & Hf & Hk).
  repeat (split; [assumption|]). exists f. split; [by apply elem_of_cons; right|done].
Qed.

Lemma main_loop_rows (net : nat -> request -> response) a mood_pool existing_keys api_key
    files :
  forall new_rows sent rows sent',
  run net (main_loop a mood_pool existing_keys api_key files new_rows) sent
  = (Ok rows, sent') ->
  exists accepted, rows = new_rows ++ accepted /\ Forall (from_page a mood_pool files) accepted.
Proof.
  induction files as [|[filename content] rest IH];
    intros new_rows sent rows sent'; cbn [main_loop].
  - cbn [run]. intros Hr. injection Hr as <- _. exists []. by rewrite app_nil_r.
  - destruct (endswith filename (u8 ".html")) eqn:Hhtml; cbn [negb].
    2:{ intros Hr. apply IH in Hr as (acc & -> & Hacc). exists acc. split; [done|].
        eapply Forall_impl; [exact Hacc|]. intros r. apply from_page_cons. }
    rewrite run_bind.
    destruct (run net (process_entry _ _ _ _ _) sent) as [[r | e] sent1] eqn:Hentry;
      [|discriminate].
    destruct r as [r|].
    + intros Hr. apply IH in Hr as (acc & -> & Hacc). exists (r :: acc).
      split; [by rewrite <- app_assoc|]. constructor.
      * apply process_entry_accepted in Hentry
          as (date_obj & title & body & date_str & mood & Hpage & Hbody & Hdate & Hmood & ->).
        destruct (process_html_file_stripped _ _ _ _ Hpage) as [Ht Hb].
        destruct (notes_of_stripped title body Ht Hb Hbody) as [Hn1 Hn2].
        split; [done|]. split; [done|]. split.
        { intros i Hi. do 15 (destruct i as [|i]; [lia || done|]). lia. }
        do 5 (split; [done|]).
        exists (filename, content). split; [by apply elem_of_cons; left|].
        unfold file_key, entry_key. cbn [fst snd]. rewrite Hhtml, Hpage.
        destruct body; [done|]. cbn [nonempty_list negb]. by rewrite Hdate.
      * eapply Forall_impl; [exact Hacc|]. intros r'. apply from_page_cons.
    + intros Hr. apply IH in Hr as (acc & -> & Hacc). exists acc. split; [done|].
      eapply Forall_impl; [exact Hacc|]. intros r. apply from_page_cons.
Qed.

(** X21: every row a run accepts has the 18 fields of the layout: a mood
    field that is the [;]-join of at most two distinct labels of the pool,
    13 blank fields, notes and reflections that are not empty and have no
    whitespace at their ends, the takeaway of the reflections, and it is
    the row of one of the [.html] files of the directory. *)
Theorem accepted_rows_well_formed (net : nat -> request -> response) (a : args)
    (mood_pool : gset str) (existing_keys : gset key) (api_key : str)
    (files : list (str * list event)) (sent : list request) (rows : list row)
    (sent' : list request) :
  run net (main_loop a mood_pool existing_keys api_key files []) sent = (Ok rows, sent') ->
  Forall (from_page a mood_pool files) rows.
Proof.
  intros Hrun. by apply main_loop_rows in Hrun as (acc & -> & Hacc).
Qed.

Lemma process_entry_forced (net : nat -> request -> response) a mood_pool existing_keys
    api_key content sent r sent' :
  force a = true ->
  run net (process_entry a mood_pool existing_keys api_key content) sent = (Ok r, sent') ->
  main_key <$> r = entry_key a content.
Proof.
  intros Hforce. unfold process_entry, entry_key. rewrite run_bind.
  destruct (process_html_file content) as [[[date_obj title] body] | e];
    cbn [lift run]; [|discriminate].
  destruct date_obj as [date_obj|]; cbn [run]; [|by intros [= <- _]].
  destruct (nonempty_list body); cbn [negb run]; [|by intros [= <- _]].
  rewrite run_bind.
  destruct (format_date_for_csv date_obj (time a)) as [date_str | e];
    cbn [lift run]; [|discriminate].
  rewrite run_bind.
  destruct (run net _ sent) as [[mood | e] sent1]; [|discriminate].
  rewrite Hforce. cbn [negb andb run]. by intros [= <- _].
Qed.

(** X22: with the force flag on, the store is not consulted: the rows of
    a run are, in order, those of all pages that have a date and a body,
    whatever the key set holds. *)
Theorem force_accepts_every_entry (net : nat -> request -> response) (a : args)
    (mood_pool : gset str) (existing_keys : gset key) (api_key : str)
    (files : list (str * list event)) (sent : list request) (rows : list row)
    (sent' : list request) :
  force a = true ->
  run net (main_loop a mood_pool existing_keys api_key files []) sent = (Ok rows, sent') ->
  map main_key rows = omap (file_key a) files.
Proof.
  intros Hforce.
  enough (Hgen : forall new_rows sent rows sent',
            run net (main_loop a mood_pool existing_keys api_key files new_rows) sent
            = (Ok rows, sent') ->
            map main_key rows = map main_key new_rows ++ omap (file_key a) files)
    by (intros Hrun; by apply Hgen in Hrun).
  clear sent rows sent'.
  induction files as [|[filename content] rest IH];
    intros new_rows sent rows sent'; cbn [main_loop].
  - cbn [run]. intros [= <- _]. by rewrite app_nil_r.
  - rewrite file_keys_cons.
    destruct (endswith filename (u8 ".html")); cbn [negb]; [|apply IH].
    rewrite run_bind.
    destruct (run net (process_entry _ _ _ _ _) sent) as [[r | e] sent1] eqn:Hentry;
      [|discriminate].
    apply process_entry_forced in Hentry; [|done]. rewrite <- Hentry.
    destruct r as [r|]; cbn [fmap option_fmap option_map]; intros Hr; apply IH in Hr.
    + by rewrite Hr, map_app, <- app_assoc.
    + done.
Qed.

Lemma process_entry_requests (net : nat -> request -> response) a mood_pool existing_keys
    api_key content sent :
  exists reqs,
    snd (run net (process_entry a mood_pool existing_keys api_key content) sent)
    = sent ++ reqs
    /\ (length reqs <= 1)%nat
    /\ Forall (fun req => llm_off a = false /\ api_key <> []
                          /\ exists prompt, req = llm_request (llm_model a) api_key prompt)
              reqs.
Proof.
  assert (Hnone : exists reqs : list request,
            sent = sent ++ reqs /\ (length reqs <= 1)%nat
            /\ Forall (fun req => llm_off a = false /\ api_key <> []
                         /\ exists prompt, req = llm_request (llm_model a) api_key prompt)
                      reqs).
  { exists []. rewrite app_nil_r. split; [done|split; [cbn; lia|constructor]]. }
  unfold process_entry. rewrite run_bind.
  destruct (process_html_file content) as [[[date_obj title] body] | e];
    cbn [lift run snd]; [|done].
  destruct date_obj as [date_obj|]; cbn [run snd]; [|done].
  destruct (nonempty_list body); cbn [negb run snd]; [|done].
  rewrite run_bind.
  destruct (format_date_for_csv date_obj (time a)) as [date_str | e];
    cbn [lift run snd]; [|done].
  rewrite run_bind.
  set (text := title ++ u8 " " ++ body).
  assert (Hmood : exists reqs,
            snd (run net (if negb (nonempty_list (choose_mood text mood_pool (llm_off a)))
                             && negb (llm_off a)
                          then llm_choose_mood text mood_pool (llm_model a) api_key 2
                          else Ret (choose_mood text mood_pool (llm_off a))) sent)
            = sent ++ reqs
            /\ (length reqs <= 1)%nat
            /\ Forall (fun req => llm_off a = false /\ api_key <> []
                         /\ exists prompt, req = llm_request (llm_model a) api_key prompt)
                      reqs).
  { destruct (llm_off a) eqn:Hoff.
    - rewrite andb_false_r. exact Hnone.
    - destruct (negb (nonempty_list _)); cbn [andb negb]; [|exact Hnone].
      destruct (llm_requests net text mood_pool (llm_model a) api_key 2 sent)
        as (reqs & Hs & Hl & Hreq).
      exists reqs. split; [done|split; [done|]].
      eapply Forall_impl; [exact Hreq|]. intros req [Hk Hp]. done. }
  destruct Hmood as (reqs & Hs & Hl & Hreq).
  destruct (run net _ sent) as [[mood | e] sent1]; cbn [snd] in Hs; subst sent1.
  - exists reqs. split; [|done]. by destruct (negb (force a) && _).
  - by exists reqs.
Qed.

Lemma main_loop_requests (net : nat -> request -> response) (a : args)
    (mood_pool : gset str) (existing_keys : gset key) (api_key : str)
    (files : list (str * list event)) (new_rows : list row) (sent : list request) :
  exists reqs,
    snd (run net (main_loop a mood_pool existing_keys api_key files new_rows) sent)
    = sent ++ reqs
    /\ (length reqs
        <= length (filter (fun file => endswith (fst file) (u8 ".html") = true) files))%nat
    /\ Forall (fun req => llm_off a = false /\ api_key <> []
                          /\ exists prompt, req = llm_request (llm_model a) api_key prompt)
              reqs.
Proof.
  revert new_rows sent.
  induction files as [|[filename content] rest IH]; intros new_rows sent; cbn [main_loop].
  - exists []. cbn [run snd]. rewrite app_nil_r. split; [done|split; [cbn; lia|constructor]].
  - destruct (endswith filename (u8 ".html")) eqn:Hhtml; cbn [negb].
    + rewrite filter_cons_True by done. rewrite run_bind.
      destruct (process_entry_requests net a mood_pool existing_keys api_key content sent)
        as (reqs1 & Hs1 & Hl1 & Hreq1).
      destruct (run net (process_entry _ _ _ _ _) sent) as [[r | e] sent1];
        cbn [snd] in Hs1; subst sent1.
      * set (rows1 := match r with Some r => new_rows ++ [r] | None => new_rows end).
        destruct (IH rows1 (sent ++ reqs1)) as (reqs2 & Hs2 & Hl2 & Hreq2).
        exists (reqs1 ++ reqs2). split; [|split].
        -- rewrite app_assoc, <- Hs2. subst rows1. by destruct r.
        -- rewrite length_app. cbn [length]. lia.
        -- by apply Forall_app.
      * exists reqs1. split; [done|split; [cbn [length]; lia|done]].
    + rewrite filter_cons_False by (cbn [fst]; congruence). apply IH.
Qed.

Lemma insert_sorted_perm {A} (key : A -> str) (a : A) (l : list A) :
  insert_sorted key a l ≡ₚ a :: l.
Proof.
  induction l as [|y l IH]; cbn [insert_sorted]; [done|].
  destruct (str_leb (key a) (key y)); [done|].
  rewrite IH. apply Permutation_swap.
Qed.

Lemma sorted_by_perm {A} (key : A -> str) (l : list A) : sorted_by key l ≡ₚ l.
Proof.
  unfold sorted_by. induction l as [|a l IH]; cbn [foldr]; [done|].
  rewrite insert_sorted_perm. by constructor.
Qed.

Lemma run_extends {A} (net : nat -> request -> response) (p : prog A) :
  forall sent, exists reqs, snd (run net p sent) = sent ++ reqs.
Proof.
  induction p as [a | e | req k IH]; intros sent; cbn [run].
  - exists []. by rewrite app_nil_r.
  - exists []. by rewrite app_nil_r.
  - destruct (IH (net (length sent) req) (sent ++ [req])) as (reqs & ->).
    exists (req :: reqs). by rewrite <- app_assoc.
Qed.

Lemma run_silent {A} (net net' : nat -> request -> response) (p : prog A) sent :
  snd (run net p sent) = sent -> run net' p sent = run net p sent.
Proof.
  destruct p as [a | e | req k]; cbn [run]; [done|done|].
  destruct (run_extends net (k (net (length sent) req)) (sent ++ [req])) as (reqs & ->).
  intros Hs. apply (f_equal length) in Hs. rewrite !length_app in Hs. cbn [length] in Hs. lia.
Qed.

Lemma main_requests (net : nat -> request -> response) (a : args) (w : world)
    (sent : list request) :
  exists reqs,
    snd (run net (main a w) sent) = sent ++ reqs
    /\ (length reqs
        <= length (filter (fun file => endswith (fst file) (u8 ".html") = true)
                          (entries w)))%nat
    /\ Forall (fun req =>
                 llm_off a = false /\ strip (OPENAI_API_KEY w) <> []
                 /\ exists prompt,
                      req = llm_request (llm_model a) (strip (OPENAI_API_KEY w)) prompt)
              reqs.
Proof.
  unfold main. case_bool_decide.
  { exists []. cbn [run snd]. rewrite app_nil_r. split; [done|split; [cbn; lia|constructor]]. }
  rewrite run_bind.
  match goal with |- context [run net (main_loop ?a ?p ?k ?api ?fs ?nr) sent] =>
    destruct (main_loop_requests net a p k api fs nr sent) as (reqs & Hs & Hl & Hreq)
  end.
  rewrite sorted_by_perm in Hl.
  destruct (run net (main_loop _ _ _ _ _ _) sent) as [[rows | e] sent1];
    cbn [snd] in Hs; subst sent1.
  - exists reqs. split; [|done].
    destruct (dry_run a); [done|]. by destruct (negb _).
  - by exists reqs.
Qed.

(** X23: a run sends at most one request for each [.html] file of the
    directory, and only when the remote tier is on and the credential,
    stripped, is not empty; each request carries the model and the
    credential of the run. *)
Theorem one_request_per_page_at_most (net : nat -> request -> response) (a : args)
    (w : world) (sent : list request) :
  exists reqs,
    snd (run net (main a w) sent) = sent ++ reqs
    /\ (length reqs
        <= length (filter (fun file => endswith (fst file) (u8 ".html") = true)
                          (entries w)))%nat
    /\ Forall (fun req =>
                 llm_off a = false /\ strip (OPENAI_API_KEY w) <> []
                 /\ exists prompt,
                      req = llm_request (llm_model a) (strip (OPENAI_API_KEY w)) prompt)
              reqs.
Proof. apply main_requests. Qed.

(** X24: with the remote tier switched off, or without a credential, a
    run sends no request, and its outcome is the same whatever the network
    would answer. *)
Theorem run_without_credential_is_offline (net : nat -> request -> response) (a : args)
    (w : world) (sent : list request) :
  llm_off a = true \/ strip (OPENAI_API_KEY w) = [] ->
  snd (run net (main a w) sent) = sent
  /\ forall net' : nat -> request -> response,
       run net' (main a w) sent = run net (main a w) sent.
Proof.
  intros Hoff.
  assert (Hsilent : snd (run net (main a w) sent) = sent).
  { destruct (main_requests net a w sent) as (reqs & -> & _ & Hreq).
    destruct reqs as [|req reqs]; [by rewrite app_nil_r|].
    apply Forall_cons in Hreq as [(Hon & Hkey & _) _].
    destruct Hoff; congruence. }
  split; [done|]. intros net'. by apply run_silent.
Qed.

(** ** A second run over the same directory *)










End Run.


(** ** The environment file *)

Section Env.
Context `{PyRuntime}.

Lemma setenv_other (env env' : gmap str str) (key value k : str) :
  setenv env key value = Ok env' -> k <> key -> env' !! k = env !! k.
Proof.
  unfold setenv. destruct (_ || _); [discriminate|].
  intros [= <-] Hk. by rewrite lookup_insert_ne.
Qed.

Lemma load_env_line_keeps (env env' : gmap str str) (line : str) (k : str) :
  load_env_line env line = Ok env' ->
  is_set env k -> env' !! k = env !! k.
Proof.
  unfold load_env_line, is_set.
  destruct (_ || _); [by intros [= <-]|].
  destruct (split_once 61 _) as [|key [|value [|]]]; try discriminate.
  destruct (nonempty_list (strip key)); cbn [negb]; [|by intros [= <-]].
  unfold str_eqb. case_bool_decide as Hblank; [|by intros [= <-]].
  intros Hset Hk. eapply setenv_other; [exact Hset|]. intros ->. done.
Qed.

Lemma load_env_line_set (env env' : gmap str str) (line : str) (k : str) :
  load_env_line env line = Ok env' -> is_set env k -> is_set env' k.
Proof.
  intros Hline Hk. pose proof (load_env_line_keeps _ _ _ _ Hline Hk) as Heq.
  unfold is_set in *. by rewrite Heq.
Qed.

Lemma load_env_lines_keeps (lines : list str) :
  forall (env env' : gmap str str) (k : str),
    load_env_lines env lines = Ok env' ->
    is_set env k -> env' !! k = env !! k.
Proof.
  induction lines as [|line rest IH]; intros env env' k; cbn [load_env_lines].
  - by intros [= <-].
  - destruct (load_env_line env line) as [env1 | e] eqn:Hline; [|discriminate].
    intros Hrest Hk. rewrite (IH _ _ k Hrest).
    + by eapply load_env_line_keeps.
    + by eapply load_env_line_set.
Qed.

(** X26: [load_env] never changes a variable that is set: a variable of
    the environment whose value is not blank has the same value after the
    files are read, whatever they hold. *)
Theorem load_env_keeps_set_variables (paths : list (option (list str)))
    (env env' : gmap str str) (k : str) :
  load_env paths env = Ok env' ->
  is_set env k ->
  env' !! k = env !! k.
Proof.
  revert env. induction paths as [|[lines|] rest IH]; intros env; cbn [load_env].
  - by intros [= <-].
  - destruct (load_env_lines env lines) as [env1 | e] eqn:Hlines; [|discriminate].
    intros Hrest Hk. rewrite (IH _ Hrest).
    + by eapply load_env_lines_keeps.
    + pose proof (load_env_lines_keeps _ _ _ _ Hlines Hk) as Heq.
      unfold is_set in *. by rewrite Heq.
  - apply IH.
Qed.

Lemma split_once_app (sep : char) (a b : str) :
  sep ∉ a -> split_once sep (a ++ sep :: b) = [a; b].
Proof.
  induction a as [|c a IH]; intros Ha; cbn [app split_once].
  - by rewrite N.eqb_refl.
  - apply not_elem_of_cons in Ha as [Hc Ha].
    destruct (N.eqb_spec c sep) as [->|_]; [done|]. by rewrite IH.
Qed.

Lemma startswith_before (sep : char) (a b p : str) :
  sep ∉ p -> startswith (a ++ sep :: b) p = startswith a p.
Proof.
  intros Hp. revert p Hp. induction a as [|c a IH]; intros [|x p] Hp; cbn [app startswith]; try done.
  - apply not_elem_of_cons in Hp as [Hx _].
    destruct (N.eqb_spec x sep) as [->|_]; [done|]. done.
  - apply not_elem_of_cons in Hp as [_ Hp]. by rewrite IH.
Qed.

Lemma lstrip_spaces (s : str) : Forall (fun c => isspace c = true) s -> lstrip s = [].
Proof.
  induction 1 as [|c s Hc _ IH]; cbn [lstrip]; [done|]. by rewrite Hc.
Qed.

Lemma strip_around (pre core post : str) :
  core <> [] ->
  (forall c, head core = Some c -> isspace c = false) ->
  (forall c, last core = Some c -> isspace c = false) ->
  Forall (fun c => isspace c = true) pre -> Forall (fun c => isspace c = true) post ->
  strip (pre ++ core ++ post) = core.
Proof.
  intros Hne Hhead Hlast Hpre Hpost. unfold strip.
  assert (Hl : lstrip (pre ++ core ++ post) = core ++ post).
  { rewrite lstrip_app_visible.
    - by rewrite lstrip_spaces.
    - by destruct core.
    - intros c Hc. apply Hhead. by destruct core. }
  rewrite Hl, rev_app_distr.
  rewrite lstrip_app_visible.
  - rewrite lstrip_spaces; [apply rev_involutive|].
    apply Forall_forall. intros c Hc. apply list_elem_of_In, in_rev, list_elem_of_In in Hc.
    by apply (proj1 (Forall_forall _ _) Hpost).
  - intros Hrev. apply Hne. apply (f_equal (@rev _)) in Hrev.
    by rewrite rev_involutive in Hrev.
  - intros c Hc. apply Hlast. by rewrite <- head_rev.
Qed.

Lemma stripped_ends (s : str) :
  strip s = s ->
  (forall c, head s = Some c -> isspace c = false)
  /\ (forall c, last s = Some c -> isspace c = false).
Proof.
  intros Hs. split; intros c Hc; rewrite <- Hs in Hc.
  - by apply strip_head in Hc.
  - by apply strip_last in Hc.
Qed.

(** X27: an assignment line [name=value], with whitespace around it,
    sets the variable to the value when it is not set, and changes nothing
    when it is; the name and the value are plain: stripped, not empty,
    without null character, the name without [=] and not starting like a
    comment, a byte-order mark or an [export], the value without quotes
    at its ends. *)
Theorem load_env_line_assigns (env : gmap str str) (pre key value post : str) :
  plain_name key -> plain_value value ->
  Forall (fun c => isspace c = true) pre -> Forall (fun c => isspace c = true) post ->
  let line := pre ++ (key ++ [61] ++ value) ++ post in
  (~ is_set env key -> load_env_line env line = Ok (<[key := value]> env))
  /\ (is_set env key -> load_env_line env line = Ok env).
Proof.
  intros (Hk1 & Hk2 & Hk3 & Hk4 & Hk5 & Hk6 & Hk7) (Hv1 & Hv2 & Hv3 & Hv4 & Hv5)
         Hpre Hpost line.
  destruct (stripped_ends key Hk2) as [Hkh _].
  destruct (stripped_ends value Hv2) as [_ Hvl].
  assert (Hline : load_env_line env line
                  = if str_eqb (strip (default ([] : str) (env !! key))) []
                    then Ok (<[key := value]> env) else Ok env).
  { unfold load_env_line. subst line. rewrite strip_around; try done.
    - cbn [app].
      assert (Hno : forall p, 61 ∉ p -> startswith (key ++ 61 :: value) p = startswith key p)
        by (intros p Hp; by apply startswith_before).
      rewrite (Hno [65279]), Hk6
        by (apply (proj1 (bool_decide_eq_false _)); vm_compute; reflexivity).
      rewrite (Hno (u8 "#")), Hk5
        by (apply (proj1 (bool_decide_eq_false _)); vm_compute; reflexivity).
      rewrite (Hno (u8 "export ")), Hk7
        by (apply (proj1 (bool_decide_eq_false _)); vm_compute; reflexivity).
      assert (Hin : one_of (key ++ 61 :: value) 61 = true).
      { apply bool_decide_eq_true. apply elem_of_app. right. by left. }
      rewrite Hin. destruct key as [|c key]; [done|]. cbn [app nonempty_list negb orb].
      change (c :: key ++ 61 :: value) with ((c :: key) ++ 61 :: value).
      rewrite split_once_app by done. rewrite Hk2, Hv2, Hv4, Hv5. cbn [nonempty_list negb].
      destruct (str_eqb _ _); [|done].
      unfold setenv. cbn [nonempty_list negb orb]. unfold one_of.
      by rewrite !bool_decide_eq_false_2.
    - by destruct key.
    - intros c Hc. apply Hkh. by destruct key.
    - intros c Hc. apply Hvl. rewrite last_app in Hc. cbn [app] in Hc.
      rewrite last_cons in Hc.
      destruct (last value) eqn:E; [done|by apply last_None in E]. }
  rewrite Hline. unfold is_set, str_eqb. split; intros Hset.
  - rewrite bool_decide_eq_true_2; [done|]. by destruct (decide (strip (default ([] : str) (env !! key)) = [])).
  - by rewrite bool_decide_eq_false_2.
Qed.

End Env.


(** ** The order of the pages *)

Section Order.
Context `{PyRuntime}.

Lemma str_leb_total (a b : str) : str_leb a b = false -> str_leb b a = true.
Proof.
  revert b. induction a as [|x a IH]; intros [|y b]; cbn [str_leb]; try done.
  destruct (N.ltb_spec x y), (N.ltb_spec y x); try done; try lia. apply IH.
Qed.

Lemma str_leb_antisym (a b : str) : str_leb a b = true -> str_leb b a = true -> a = b.
Proof.
  revert b. induction a as [|x a IH]; intros [|y b]; cbn [str_leb]; try done.
  destruct (N.ltb_spec x y), (N.ltb_spec y x); try done; try lia.
  intros Hab Hba. f_equal; [lia|by apply IH].
Qed.

Lemma str_leb_trans (a b c : str) :
  str_leb a b = true -> str_leb b c = true -> str_leb a c = true.
Proof.
  revert b c. induction a as [|x a IH]; intros [|y b] [|z c]; cbn [str_leb]; try done.
  destruct (N.ltb_spec x y), (N.ltb_spec y x), (N.ltb_spec y z), (N.ltb_spec z y),
           (N.ltb_spec x z), (N.ltb_spec z x); try done; try lia.
  apply IH.
Qed.

Lemma insert_sorted_Sorted {A} (key : A -> str) (x : A) (l : list A) :
  Sorted (fun a b => str_leb (key a) (key b) = true) l ->
  Sorted (fun a b => str_leb (key a) (key b) = true) (insert_sorted key x l).
Proof.
  induction 1 as [|y l Hl IH Hhd]; cbn [insert_sorted].
  - by repeat constructor.
  - destruct (str_leb (key x) (key y)) eqn:Hxy.
    + constructor; [by constructor|by constructor].
    + constructor; [done|]. apply str_leb_total in Hxy.
      destruct l as [|z l]; cbn [insert_sorted]; [by constructor|].
      destruct (str_leb (key x) (key z)); constructor; [done|].
      by inversion Hhd.
Qed.

Lemma sorted_by_Sorted {A} (key : A -> str) (l : list A) :
  Sorted (fun a b => str_leb (key a) (key b) = true) (sorted_by key l).
Proof.
  unfold sorted_by. induction l as [|x l IH]; cbn [foldr]; [constructor|].
  by apply insert_sorted_Sorted.
Qed.

Lemma sorted_by_order {A} (key : A -> str) (l1 l2 : list A) :
  NoDup (map key l1) -> l1 ≡ₚ l2 -> sorted_by key l1 = sorted_by key l2.
Proof.
  intros Hnd Hperm.
  assert (Htrans : Transitive (fun a b : A => str_leb (key a) (key b) = true))
    by (intros a b c; apply str_leb_trans).
  apply (Sorted_unique_strong (fun a b => str_leb (key a) (key b) = true)).
  - intros x1 x2 Hx1 Hx2 H12 H21.
    rewrite sorted_by_perm in Hx1. rewrite sorted_by_perm, <- Hperm in Hx2.
    pose proof (str_leb_antisym _ _ H12 H21) as Hkey.
    apply list_elem_of_lookup in Hx1 as [i Hi]. apply list_elem_of_lookup in Hx2 as [j Hj].
    assert (Hij : i = j).
    { eapply NoDup_lookup; [exact Hnd| |].
      - by rewrite list_lookup_fmap, Hi.
      - by rewrite list_lookup_fmap, Hj, Hkey. }
    subst j. congruence.
  - apply sorted_by_Sorted.
  - apply sorted_by_Sorted.
  - by rewrite !sorted_by_perm.
Qed.

(** X28: the run does not depend on the order in which the directory
    lists its files: two listings of the same files, with pairwise
    distinct names, give the same program. *)
Theorem listing_order_is_irrelevant (a : args) (w : world)
    (files : list (str * list event)) :
  NoDup (map fst (entries w)) -> entries w ≡ₚ files ->
  main a (mk_world (csv w) (moods_file w) (OPENAI_API_KEY w) files) = main a w.
Proof.
  intros Hnd Hperm. unfold main. cbn [csv moods_file OPENAI_API_KEY entries].
  by rewrite (sorted_by_order fst (entries w) files Hnd Hperm).
Qed.

Lemma process_entry_flags (a a' : args) mood_pool existing_keys api_key content :
  time a = time a' -> force a = force a' -> llm_model a = llm_model a' ->
  llm_off a = llm_off a' ->
  process_entry a mood_pool existing_keys api_key content
  = process_entry a' mood_pool existing_keys api_key content.
Proof.
  intros Ht Hf Hm Ho. unfold process_entry. by rewrite Ht, Hf, Hm, Ho.
Qed.

Lemma main_loop_flags (net : nat -> request -> response) (a a' : args)
    (mood_pool : gset str) (existing_keys : gset key) (api_key : str)
    (files : list (str * list event)) :
  time a = time a' -> force a = force a' -> llm_model a = llm_model a' ->
  llm_off a = llm_off a' ->
  forall new_rows sent,
    run net (main_loop a mood_pool existing_keys api_key files new_rows) sent
    = run net (main_loop a' mood_pool existing_keys api_key files new_rows) sent.
Proof.
  intros Ht Hf Hm Ho. induction files as [|[filename content] rest IH];
    intros new_rows sent; cbn [main_loop]; [done|].
  destruct (negb _); [apply IH|]. rewrite !run_bind.
  rewrite (process_entry_flags a a') by done.
  destruct (run net (process_entry a' _ _ _ _) sent) as [[[r|] | e] sent1]; [apply IH..|done].
Qed.

(** X29: a dry run reports the number of rows the run would write: with
    the same inputs and the same network, the run with [--dry-run] sends
    the same requests and ends with the count of the rows the run without
    it appends, and as that run in every other case. *)
Theorem dry_run_counts_the_rows (net : nat -> request -> response) (a : args) (w : world)
    (sent : list request) :
  let dry := mk_args (time a) true (force a) (llm_model a) (llm_off a) in
  let wet := mk_args (time a) false (force a) (llm_model a) (llm_off a) in
  run net (main dry w) sent
  = match run net (main wet w) sent with
    | (Ok (Appended new_rows), sent') => (Ok (DryRun (length new_rows)), sent')
    | other => other
    end.
Proof.
  intros dry wet. unfold main. case_bool_decide as Hmoods; [done|].
  rewrite !run_bind.
  rewrite (main_loop_flags net dry wet) by done.
  destruct (run net (main_loop wet _ _ _ _ _) sent) as [[rows | e] sent1]; [|done].
  cbn [dry_run dry wet].
  destruct (csv w) as [rows0|] eqn:Hcsv.
  - by rewrite bool_decide_eq_true_2.
  - by destruct Hmoods.
Qed.

(** X30: the message that the store is missing is never reached: a
    missing store has no moods, so the run has ended before. *)
Theorem missing_store_ends_the_run_early (net : nat -> request -> response) (a : args)
    (w : world) (sent : list request) :
  match fst (run net (main a w) sent) with
  | Ok NoCsv => False
  | _ => True
  end
  /\ (csv w = None -> main a w = Ret NoMoods).
Proof.
  unfold main. case_bool_decide as Hmoods.
  - done.
  - split; [|by intros Hcsv; rewrite Hcsv in Hmoods].
    rewrite run_bind.
    destruct (run net (main_loop _ _ _ _ _ _) sent) as [[rows | e] sent1]; [|done].
    destruct (dry_run a); [done|].
    destruct (csv w) as [rows0|] eqn:Hcsv; [by rewrite bool_decide_eq_true_2|].
    by destruct Hmoods.
Qed.

End Order.


(** * The program on concrete inputs *)

Section Latin1.
Local Existing Instance latin1.

(** ** The scenario of the specification *)

(** C1: on the scenario page the date, the body and the takeaway come out
    as stated, but the anxiety pattern [\b(ansios|...)\b] does not match
    [ansioso] (a word character follows the stem), so [choose_mood] returns
    the empty string, with and without the neutral fallback, and the record
    of an offline run has an empty mood field. *)
Theorem scenario_heuristic_mood_is_empty :
  process_html_file (page scenario_header scenario_body)
  = Ok (Some (mk_date 2024 3 3), [], scenario_body)
  /\ found (fst rule_anxiety) (lower ([] ++ u8 " " ++ scenario_body)) = false
  /\ choose_mood ([] ++ u8 " " ++ scenario_body) scenario_pool true = []
  /\ choose_mood ([] ++ u8 " " ++ scenario_body) scenario_pool false = []
  /\ extract_takeaway scenario_body = u8 "Quero melhorar minha rotina."
  /\ run (always (Fails URLError))
         (main_loop (default_args true) scenario_pool ∅ []
                    [(u8 "entry.html", page scenario_header scenario_body)] []) []
     = (Ok [scenario_row []], []).
Proof. repeat split; vm_compute; reflexivity. Qed.

(** ** Dates outside the calendar *)

(** C5: a header whose date pattern matches but names no calendar day makes
    [dt.date] raise [ValueError]; nothing catches it, and the run ends with
    that exception instead of going on with the next page. *)
Theorem invalid_calendar_date_aborts_run :
  parse_date_from_header (u8 "31 de abril de 2024") = Raise ValueError
  /\ parse_date_from_header (u8 "0 de abril de 2024") = Raise ValueError
  /\ process_html_file (page (u8 "31 de abril de 2024") scenario_body) = Raise ValueError
  /\ forall net,
       run net
         (main (default_args true)
               (mk_world one_record_store None []
                  [ (u8 "a.html", page (u8 "31 de abril de 2024") scenario_body);
                    (u8 "b.html", page scenario_header scenario_body) ])) []
       = (Raise ValueError, []).
Proof. repeat split; try intros net; vm_compute; reflexivity. Qed.

(** ** Failures of the remote call *)

(** C6: the [except] clause of [llm_choose_mood] names [URLError],
    [HTTPError] and [JSONDecodeError]; a failure of those classes gives the
    empty string, but a read timeout, a body that is not UTF-8 or a JSON
    value that is not an object raises to the caller, and the run ends
    there. *)
Theorem remote_failure_reaches_the_caller :
  let call := llm_choose_mood scenario_body scenario_pool (u8 "gpt-4o-mini") (u8 "sk") 2 in
  fst (run (always (Fails URLError)) call []) = Ok []
  /\ fst (run (always (Fails HTTPError)) call []) = Ok []
  /\ fst (run (always (Fails JSONDecodeError)) call []) = Ok []
  /\ fst (run (always (Fails TimeoutError)) call []) = Raise TimeoutError
  /\ fst (run (always (Fails UnicodeDecodeError)) call []) = Raise UnicodeDecodeError
  /\ fst (run (always (Loads (JArr []))) call []) = Raise AttributeError
  /\ fst (run (always (Fails TimeoutError))
              (main (default_args false)
                    (mk_world one_record_store None (u8 "sk")
                       [ (u8 "a.html", page scenario_header scenario_body);
                         (u8 "b.html", page scenario_header scenario_body) ])) [])
     = Raise TimeoutError.
Proof. repeat split; vm_compute; reflexivity. Qed.

(** ** Nested containers in the page header *)

(** C7: the close of any [div] turns the page-header state (and the title
    state) off; with a [div] nested in the page header, the text after the
    nested [div] goes to the body fragments. *)
Theorem nested_div_ends_page_header :
  page_header (feed parser_init (nested_in (u8 "pageHeader"))) = u8 "AB"
  /\ text_parts (feed parser_init (nested_in (u8 "pageHeader"))) = [u8 "C"]
  /\ title (feed parser_init (nested_in (u8 "title"))) = u8 "AB"
  /\ text_parts (feed parser_init (nested_in (u8 "title"))) = [u8 "C"].
Proof. repeat split; vm_compute; reflexivity. Qed.

(** ** The claims the code departs from by design *)

(** C2, as stated, fails: two pages with equal keys, neither in the store,
    are both accepted in one run with the force flag off. *)
Lemma equal_keys_both_accepted :
  ~ (forall net a mood_pool existing_keys api_key files rows sent',
       force a = false ->
       run net (main_loop a mood_pool existing_keys api_key files []) [] = (Ok rows, sent') ->
       NoDup (map main_key rows)).
Proof.
  intros Hclaim.
  specialize (Hclaim (always (Fails URLError)) (default_args true) scenario_pool ∅ []
                twin_files [scenario_row []; scenario_row []] []).
  assert (Hdup : NoDup (map main_key [scenario_row []; scenario_row []])).
  { apply Hclaim; vm_compute; reflexivity. }
  cbn [map] in Hdup. apply NoDup_cons in Hdup as [Hnotin _].
  apply Hnotin. apply elem_of_cons. by left.
Qed.

Lemma accepted_iff_key_not_in_store_witness :
  force (default_args true) = false
  /\ run (always (Fails URLError))
         (main_loop (default_args true) scenario_pool ∅ [] twin_files []) []
     = (Ok [scenario_row []; scenario_row []], [])
  /\ map main_key [scenario_row []; scenario_row []]
     = absent_from ∅ (omap (file_key (default_args true)) twin_files).
Proof.
  split; [reflexivity|]. split; [vm_compute; reflexivity|].
  apply (accepted_iff_key_not_in_store (always (Fails URLError)) (default_args true)
           scenario_pool ∅ [] twin_files [] [scenario_row []; scenario_row []] []).
  - reflexivity.
  - vm_compute; reflexivity.
Defined.

(** C3, as stated, fails: the store yields no mood, the supplementary list
    supplies one, the pool is not empty, and the run stops all the same. *)
Lemma supplementary_moods_do_not_keep_the_run :
  ~ (forall a w,
       main a w = Ret NoMoods
       <-> build_mood_pool (load_existing_moods (csv w)) (load_moods_file (moods_file w)) = ∅).
Proof.
  intros Hclaim.
  destruct (Hclaim (default_args true) (mk_world empty_store calm_only [] twin_files))
    as [Hhalt _].
  assert (Hpool : u8 "Calm" ∈ build_mood_pool (load_existing_moods empty_store)
                                (load_moods_file calm_only)).
  { apply (bool_decide_unpack _); vm_compute; exact I. }
  cbn [csv moods_file] in Hhalt. rewrite Hhalt in Hpool.
  - by apply not_elem_of_empty in Hpool.
  - vm_compute. reflexivity.
Qed.

Lemma main_halts_iff_no_existing_moods_witness :
  main (default_args true) (mk_world empty_store calm_only [] twin_files) = Ret NoMoods
  /\ build_mood_pool (load_existing_moods one_record_store) (load_moods_file calm_only) <> ∅.
Proof.
  split.
  - apply (main_halts_iff_no_existing_moods (default_args true)
             (mk_world empty_store calm_only [] twin_files)).
    vm_compute. reflexivity.
  - apply (main_halts_iff_no_existing_moods (default_args true)
             (mk_world one_record_store calm_only [] twin_files)).
    vm_compute. discriminate.
Defined.

(** C4, as stated, fails: a row has 18 fields, not 17. *)
Lemma build_row_has_not_17_fields :
  ~ (forall date_str mood notes reflections takeaways,
       length (build_row date_str mood notes reflections takeaways) = 17%nat).
Proof. intros Hclaim. specialize (Hclaim [] [] [] [] []). discriminate. Qed.

(** C8, as stated, fails: when the anxiety pattern matches too, its label
    and the crisis label fill the two slots and the gratitude label is not
    in the result. *)
Lemma gratitude_label_left_out :
  ~ (forall text mood_pool allow_fallback,
       found (fst rule_crisis) (lower text) = true ->
       found (fst rule_gratitude) (lower text) = true ->
       u8 "Depressed" ∈ mood_pool -> u8 "Grateful" ∈ mood_pool ->
       exists i j,
         choose_mood_chosen text mood_pool allow_fallback !! i = Some (u8 "Depressed")
         /\ choose_mood_chosen text mood_pool allow_fallback !! j = Some (u8 "Grateful")
         /\ (i < j)%nat).
Proof.
  intros Hclaim.
  destruct (Hclaim (u8 "Ansiedade sem razão, mas feliz.")
              {[ u8 "Anxious"; u8 "Depressed"; u8 "Grateful" ]} false)
    as (i & j & _ & Hj & _).
  - vm_compute; reflexivity.
  - vm_compute; reflexivity.
  - apply (bool_decide_unpack _); vm_compute; exact I.
  - apply (bool_decide_unpack _); vm_compute; exact I.
  - assert (Hchosen : choose_mood_chosen (u8 "Ansiedade sem razão, mas feliz.")
                        {[ u8 "Anxious"; u8 "Depressed"; u8 "Grateful" ]} false
                      = [u8 "Anxious"; u8 "Depressed"]) by (vm_compute; reflexivity).
    rewrite Hchosen in Hj. destruct j as [|[|j]]; vm_compute in Hj; discriminate.
Qed.

Lemma crisis_label_precedes_gratitude_witness :
  choose_mood (u8 "Chorei sem razão, mas estou feliz.")
              {[ u8 "Depressed"; u8 "Grateful" ]} true
  = join (u8 ";") (choose_mood_chosen (u8 "Chorei sem razão, mas estou feliz.")
                                      {[ u8 "Depressed"; u8 "Grateful" ]} true).
Proof.
  apply (crisis_label_precedes_gratitude (u8 "Chorei sem razão, mas estou feliz.")
           {[ u8 "Depressed"; u8 "Grateful" ]} true).
  - vm_compute; reflexivity.
  - vm_compute; reflexivity.
  - apply (bool_decide_unpack _); vm_compute; exact I.
  - apply (bool_decide_unpack _); vm_compute; exact I.
Defined.

Lemma llm_choose_mood_guard_witness :
  llm_choose_mood scenario_body scenario_pool (u8 "gpt-4o-mini") [] 2 = Ret [].
Proof.
  apply (llm_choose_mood_guard scenario_body scenario_pool (u8 "gpt-4o-mini") [] 2).
  left. reflexivity.
Defined.

(** ** Dates read back *)

Lemma small_numbers_ok : forallb (fun i => digits_ok (N.of_nat i)) (seq 0 (N.to_nat 10000)) = true.
Proof. vm_compute. reflexivity. Qed.

Lemma months_ok : forallb month_ok PORTUGUESE_MONTHS = true.
Proof. vm_compute. reflexivity. Qed.

Lemma digits_ok_spec (n : N) :
  n < 10000 ->
  Forall (fun c => is_digit c = true) (str_of_N n)
  /\ int_of (str_of_N n) = n
  /\ (1 <= length (str_of_N n))%nat
  /\ (n < 100 -> (length (str_of_N n) <= 2)%nat)
  /\ (1000 <= n -> length (str_of_N n) = 4%nat).
Proof.
  intros Hn. pose proof small_numbers_ok as Hall.
  rewrite forallb_forall in Hall. specialize (Hall (N.to_nat n)).
  rewrite N2Nat.id in Hall. unfold digits_ok in Hall. cbn zeta in Hall.
  assert (Hin : In (N.to_nat n) (seq 0 (N.to_nat 10000))) by (apply in_seq; lia).
  apply Hall in Hin. clear Hall.
  repeat (apply andb_prop in Hin as [Hin ?]).
  split; [by apply Forall_forall; intros c Hc; apply list_elem_of_In in Hc;
          eapply forallb_forall in Hin|].
  split; [by apply N.eqb_eq|]. split; [by apply Nat.leb_le|]. split.
  - intros Hlt. apply N.ltb_lt in Hlt.
    match goal with Hx : (_ && _ || negb (n <? 100)) = true |- _ =>
      rewrite Hlt in Hx; cbn [andb negb orb] in Hx; rewrite orb_false_r in Hx;
      by apply Nat.leb_le in Hx end.
  - intros Hge. apply N.leb_le in Hge.
    match goal with Hx : (_ && _ || negb (1000 <=? n)) = true |- _ =>
      rewrite Hge in Hx; cbn [andb negb orb] in Hx; rewrite orb_false_r in Hx;
      by apply Nat.eqb_eq in Hx end.
Qed.


Lemma latin1_digit_range (c : char) : is_digit c = true <-> 48 <= c <= 57.
Proof.
  unfold is_digit. cbn [decimal latin1]. unfold latin1_decimal, in_range.
  destruct (48 <=? c) eqn:H1; destruct (c <=? 57) eqn:H2; cbn [andb];
    rewrite bool_decide_eq_true;
    try apply N.leb_le in H1; try apply N.leb_le in H2;
    try apply N.leb_gt in H1; try apply N.leb_gt in H2;
    split; try (intros [? [=]]); try lia; intros _; by eexists.
Qed.

Lemma latin1_lower1_digit (c : char) : is_digit c = true -> latin1_lower1 c = c.
Proof.
  intros Hc. apply latin1_digit_range in Hc. unfold latin1_lower1, in_range.
  destruct (65 <=? c) eqn:H1; [apply N.leb_le in H1; lia|]. cbn [andb orb].
  destruct (192 <=? c) eqn:H2; [apply N.leb_le in H2; lia|]. done.
Qed.

Lemma latin1_lower1_no_digit (c : char) :
  is_digit c = false -> is_digit (latin1_lower1 c) = false.
Proof.
  intros Hc. apply not_true_is_false. intros Hd. apply latin1_digit_range in Hd.
  apply not_true_iff_false in Hc. apply Hc, latin1_digit_range.
  unfold latin1_lower1, in_range in Hd.
  destruct (65 <=? c) eqn:H1, (c <=? 90) eqn:H2; cbn [andb orb] in Hd;
    try apply N.leb_le in H1; try apply N.leb_le in H2; try lia;
    destruct (192 <=? c) eqn:H3, (c <=? 222) eqn:H4; cbn [andb orb] in Hd;
    try apply N.leb_le in H3; try apply N.leb_le in H4; try lia;
    destruct (negb (c =? 215)); lia.
Qed.

Lemma latin1_digit_visible (c : char) : is_digit c = true -> isspace c = false.
Proof.
  intros Hc. apply latin1_digit_range in Hc. cbn [isspace latin1].
  unfold latin1_isspace, in_range.
  repeat match goal with
  | |- context [?a <=? ?b] => destruct (N.leb_spec a b); try lia
  | |- context [?a =? ?b] => destruct (N.eqb_spec a b); try lia
  end; done.
Qed.

Lemma month_ok_spec (name : str) (mo : N) :
  (name, mo) ∈ PORTUGUESE_MONTHS ->
  Forall (fun c => month_letter c = true) name /\ (1 <= length name)%nat
  /\ map latin1_lower1 name = name
  /\ dict_get (replace_chr 231 (u8 "c") name) PORTUGUESE_MONTHS = Some mo
  /\ 1 <= mo <= 12.
Proof.
  intros Hin. pose proof months_ok as Hall. rewrite forallb_forall in Hall.
  apply list_elem_of_In, Hall in Hin. unfold month_ok in Hin.
  apply andb_prop in Hin as [Hin Hhi]. apply andb_prop in Hin as [Hin Hlo].
  apply andb_prop in Hin as [Hin Hget]. apply andb_prop in Hin as [Hin Hlow].
  apply andb_prop in Hin as [Hin Hlen].
  apply bool_decide_eq_true in Hget, Hlow. apply N.leb_le in Hhi, Hlo.
  apply Nat.leb_le in Hlen.
  split; [|done]. apply Forall_forall. intros c Hc. apply list_elem_of_In in Hc.
  by eapply forallb_forall in Hin.
Qed.

Lemma written_date_lower (d : N) (name : str) (mo y : N) :
  (name, mo) ∈ PORTUGUESE_MONTHS -> d < 10000 -> y < 10000 ->
  map latin1_lower1 (written_date d name y) = written_date d name y.
Proof.
  intros Hname Hd Hy. unfold written_date. rewrite !map_app.
  destruct (month_ok_spec name mo Hname) as (_ & _ & Hlow & _).
  destruct (digits_ok_spec d Hd) as (Hds & _). destruct (digits_ok_spec y Hy) as (Hys & _).
  assert (Hfix : forall l : str,
            Forall (fun c => is_digit c = true) l -> map latin1_lower1 l = l).
  { induction 1 as [|c l Hc _ IH]; [done|]. cbn [map]. by rewrite latin1_lower1_digit, IH. }
  f_equal; [by apply Hfix|]. f_equal. f_equal; [exact Hlow|]. f_equal. by apply Hfix.
Qed.

(** X11: every day of the calendar between the years 1000 and 9999,
    written as [<day> de <month name> de <year>] with any of the 13 names
    of the table, after any Latin-1 text without digits, is read back as
    that date. *)
Theorem parse_date_round_trip (prefix name : str) (d mo y : N) :
  Forall (fun c => c < 256 /\ is_digit c = false) prefix ->
  (name, mo) ∈ PORTUGUESE_MONTHS ->
  1000 <= y <= 9999 -> 1 <= d <= days_in_month y mo ->
  parse_date_from_header (prefix ++ written_date d name y) = Ok (Some (mk_date y mo d)).
Proof.
  intros Hprefix Hname Hy Hd.
  destruct (month_ok_spec name mo Hname) as (Hletters & Hlen & _ & Hget & Hmo).
  assert (Hd' : d < 100).
  { unfold days_in_month in Hd. repeat case_match; lia. }
  destruct (digits_ok_spec d) as (Hds & Hdv & Hd1 & Hd2 & _); [lia|].
  destruct (digits_ok_spec y) as (Hys & Hyv & Hy1 & _ & Hy4); [lia|].
  assert (Hcore : exists c0 rest, written_date d name y = c0 :: rest /\ is_digit c0 = true).
  { unfold written_date. destruct (str_of_N d) as [|c0 rest] eqn:E; [cbn in Hd1; lia|].
    apply Forall_cons in Hds as [Hc0 _].
    by exists c0, (rest ++ u8 " de " ++ name ++ u8 " de " ++ str_of_N y). }
  destruct Hcore as (c0 & rest & Hcore & Hc0).
  assert (Hlast : exists c1, last (written_date d name y) = Some c1 /\ is_digit c1 = true).
  { unfold written_date. rewrite !app_assoc.
    destruct (last (str_of_N y)) as [c1|] eqn:E.
    - exists c1. split; [by rewrite last_app, E|].
      apply last_Some_elem_of in E. rewrite Forall_forall in Hys. by apply Hys.
    - apply last_None in E. rewrite E in Hy1. cbn in Hy1. lia. }
  destruct Hlast as (c1 & Hlast & Hc1).
  apply (parse_written_date _ (map latin1_lower1 (lstrip prefix))
           (str_of_N d) name (str_of_N y) mo).
  - change (@lower latin1) with (map latin1_lower1).
    etrans; [apply f_equal, (strip_app_visible prefix (written_date d name y))|].
    + by rewrite Hcore.
    + rewrite Hcore. intros c [= <-]. by apply latin1_digit_visible.
    + rewrite Hlast. intros c [= <-]. by apply latin1_digit_visible.
    + etrans; [apply map_app|]. f_equal.
      apply (written_date_lower d name mo y); (done || lia).
  - apply Forall_fmap. destruct (lstrip_split prefix) as (pre & Hp & _).
    rewrite Hp in Hprefix. apply Forall_app in Hprefix as [_ Hprefix].
    eapply Forall_impl; [exact Hprefix|]. intros c [_ Hc]. by apply latin1_lower1_no_digit.
  - done.
  - done.
  - split; [done|]. apply Hd2. lia.
  - done.
  - done.
  - done.
  - apply Hy4. lia.
  - done.
  - lia.
  - rewrite Hdv, Hyv. unfold dt_date.
    repeat match goal with
    | |- context [?a <=? ?b] => destruct (N.leb_spec a b); try lia
    end. done.
Qed.

(** ** The further properties on concrete inputs *)

Lemma normalize_text_normal_form_witness :
  isspace 32 = true
  /\ tidy (normalize_text (u8 "  a  b "))
  /\ visible (normalize_text (u8 "  a  b ")) = visible (u8 "  a  b ").
Proof.
  split; [reflexivity|]. apply (normalize_text_normal_form (u8 "  a  b ")). reflexivity.
Defined.

Lemma normalize_text_idempotent_witness :
  isspace 32 = true
  /\ (normalize_text (u8 "a b") = u8 "a b" <-> tidy (u8 "a b"))
  /\ normalize_text (normalize_text (u8 "a b")) = normalize_text (u8 "a b").
Proof.
  split; [reflexivity|]. apply (normalize_text_idempotent (u8 "a b")). reflexivity.
Defined.

Lemma sentences_keep_their_punctuation_witness :
  split_sentences scenario_body
  = [u8 "Estou muito ansioso hoje."] ++ [u8 "Quero melhorar minha rotina."]
  /\ Forall ends_sentence [u8 "Estou muito ansioso hoje."].
Proof.
  split; [vm_compute; reflexivity|].
  apply (sentences_keep_their_punctuation scenario_body [u8 "Estou muito ansioso hoje."]
           (u8 "Quero melhorar minha rotina.")).
  - apply (proj1 (Forall_forall _ _)). vm_compute. repeat constructor.
  - vm_compute; reflexivity.
Defined.

Lemma nothing_captured_outside_body_witness :
  in_body parser_init = false
  /\ text_parts (feed parser_init [StartTag (u8 "div") []; Data (u8 "x"); EndTag (u8 "div")])
     = text_parts parser_init.
Proof.
  split; [reflexivity|].
  apply (nothing_captured_outside_body parser_init
           [StartTag (u8 "div") []; Data (u8 "x"); EndTag (u8 "div")]).
  - reflexivity.
  - vm_compute. repeat constructor.
Defined.

Lemma text_goes_to_one_place_witness :
  in_body (feed parser_init [StartTag (u8 "body") []]) = true
  /\ text_parts (feed (feed parser_init [StartTag (u8 "body") []])
                      [StartTag (u8 "p") []; Data (u8 "x"); EndTag (u8 "p")])
     = text_parts (feed parser_init [StartTag (u8 "body") []])
       ++ fragments true [StartTag (u8 "p") []; Data (u8 "x"); EndTag (u8 "p")].
Proof.
  split; [reflexivity|].
  apply (text_goes_to_one_place (feed parser_init [StartTag (u8 "body") []])
           [StartTag (u8 "p") []; Data (u8 "x"); EndTag (u8 "p")]).
  - reflexivity.
  - vm_compute. repeat constructor.
Defined.

Lemma processed_page_is_clean_witness :
  process_html_file (page scenario_header scenario_body)
  = Ok (Some (mk_date 2024 3 3), [], scenario_body)
  /\ tidy [] /\ tidy scenario_body /\ (8226 ∉ scenario_body).
Proof.
  split; [vm_compute; reflexivity|].
  apply (processed_page_is_clean (page scenario_header scenario_body)
           (Some (mk_date 2024 3 3)) [] scenario_body).
  - reflexivity.
  - reflexivity.
  - vm_compute; reflexivity.
Defined.

Lemma header_without_digit_is_unresolved_witness :
  Forall (fun c => is_digit c = false) (lower (strip (u8 "sem data")))
  /\ parse_date_from_header (u8 "sem data") = Ok None.
Proof.
  assert (Hno : Forall (fun c => is_digit c = false) (lower (strip (u8 "sem data"))))
    by (vm_compute; repeat constructor).
  split; [exact Hno|].
  apply (header_without_digit_is_unresolved (u8 "sem data")). exact Hno.
Defined.

Lemma parse_date_round_trip_witness :
  parse_date_from_header (u8 "quinta-feira, " ++ written_date 29 (u8 "fevereiro") 2024)
  = Ok (Some (mk_date 2024 2 29)).
Proof.
  apply (parse_date_round_trip (u8 "quinta-feira, ") (u8 "fevereiro") 29 2 2024).
  - vm_compute. repeat constructor.
  - apply (bool_decide_unpack _). vm_compute. exact I.
  - lia.
  - vm_compute. split; discriminate.
Defined.

Lemma same_weekday_same_key_witness :
  weekday (mk_date 2024 3 3) = weekday (mk_date 2024 3 10)
  /\ entry_key (default_args true) (page (u8 "3 de março de 2024") scenario_body)
     = entry_key (default_args true) (page (u8 "10 de março de 2024") scenario_body).
Proof.
  split; [vm_compute; reflexivity|].
  apply (same_weekday_same_key (default_args true)
           (page (u8 "3 de março de 2024") scenario_body)
           (page (u8 "10 de março de 2024") scenario_body)
           (mk_date 2024 3 3) (mk_date 2024 3 10) [] scenario_body);
    vm_compute; reflexivity.
Defined.

Lemma choose_mood_without_match_witness :
  choose_mood (u8 "Hoje choveu.") {[ u8 "Calm"; u8 "Anxious" ]} false = []
  /\ choose_mood (u8 "Hoje choveu.") {[ u8 "Calm"; u8 "Anxious" ]} true
     = default [] (head (filter (fun f => f ∈ ({[ u8 "Calm"; u8 "Anxious" ]} : gset str))
                                FALLBACKS)).
Proof.
  apply (choose_mood_without_match (u8 "Hoje choveu.") {[ u8 "Calm"; u8 "Anxious" ]}).
  unfold mood_rules. repeat (constructor; [vm_compute; reflexivity|]). constructor.
Defined.


Lemma llm_sends_one_request_witness :
  snd (run (always (Fails TimeoutError))
           (llm_choose_mood scenario_body scenario_pool (u8 "gpt-4o-mini") (u8 "sk") 2) [])
  = [] ++ [llm_request (u8 "gpt-4o-mini") (u8 "sk")
             (llm_prompt 2 (sorted (elements scenario_pool)) (take 2000 scenario_body))].
Proof.
  apply (llm_sends_one_request scenario_body scenario_pool (u8 "gpt-4o-mini") (u8 "sk") 2
           (always (Fails TimeoutError)) []).
  - discriminate.
  - apply (bool_decide_unpack _). vm_compute. exact I.
Defined.

Lemma llm_answer_matched_ignoring_case_witness :
  output_text (answer (u8 " anxious" ++ [10])) = Ok (u8 " anxious" ++ [10])
  /\ fst (run (always (Loads (answer (u8 " anxious" ++ [10]))))
              (llm_choose_mood scenario_body scenario_pool (u8 "gpt-4o-mini") (u8 "sk") 2) [])
     = Ok (u8 "Anxious").
Proof.
  split; [vm_compute; reflexivity|].
  apply (llm_answer_matched_ignoring_case scenario_body scenario_pool (u8 "gpt-4o-mini")
           (u8 "sk") 2 (answer (u8 " anxious" ++ [10])) (u8 " anxious" ++ [10])
           (u8 "Anxious") []).
  - discriminate.
  - apply (bool_decide_unpack _). vm_compute. exact I.
  - discriminate.
  - vm_compute; reflexivity.
  - apply (proj1 (bool_decide_eq_false _)). vm_compute. reflexivity.
  - vm_compute. discriminate.
  - vm_compute; reflexivity.
  - intros m' Hm'. unfold scenario_pool in Hm'.
    apply elem_of_union in Hm' as [Hm' | Hm']; apply elem_of_singleton in Hm'; subst m'.
    + reflexivity.
    + vm_compute. discriminate.
Defined.

Lemma accepted_rows_well_formed_witness :
  run (always (Fails URLError))
      (main_loop (default_args true) scenario_pool ∅ [] twin_files []) []
  = (Ok [scenario_row []; scenario_row []], [])
  /\ Forall (from_page (default_args true) scenario_pool twin_files)
            [scenario_row []; scenario_row []].
Proof.
  split; [vm_compute; reflexivity|].
  apply (accepted_rows_well_formed (always (Fails URLError)) (default_args true)
           scenario_pool ∅ [] twin_files [] [scenario_row []; scenario_row []] []).
  vm_compute; reflexivity.
Defined.

Lemma force_accepts_every_entry_witness :
  force forced_args = true
  /\ run (always (Fails URLError))
         (main_loop forced_args scenario_pool {[ main_key (scenario_row []) ]} []
                    twin_files []) []
     = (Ok [scenario_row []; scenario_row []], [])
  /\ map main_key [scenario_row []; scenario_row []] = omap (file_key forced_args) twin_files.
Proof.
  split; [reflexivity|]. split; [vm_compute; reflexivity|].
  apply (force_accepts_every_entry (always (Fails URLError)) forced_args scenario_pool
           {[ main_key (scenario_row []) ]} [] twin_files []
           [scenario_row []; scenario_row []] []).
  - reflexivity.
  - vm_compute; reflexivity.
Defined.

Lemma run_without_credential_is_offline_witness :
  strip (OPENAI_API_KEY twin_world) = []
  /\ snd (run (always (Fails TimeoutError)) (main (default_args false) twin_world) []) = []
  /\ forall net' : nat -> request -> response,
       run net' (main (default_args false) twin_world) []
       = run (always (Fails TimeoutError)) (main (default_args false) twin_world) [].
Proof.
  split; [reflexivity|].
  apply (run_without_credential_is_offline (always (Fails TimeoutError)) (default_args false)
           twin_world []).
  right. reflexivity.
Defined.


Lemma load_env_keeps_set_variables_witness :
  load_env [None; Some env_file] credential_set
  = Ok (<[u8 "MODEL" := u8 "x"]> credential_set)
  /\ (<[u8 "MODEL" := u8 "x"]> credential_set) !! u8 "OPENAI_API_KEY"
     = credential_set !! u8 "OPENAI_API_KEY".
Proof.
  split; [vm_compute; reflexivity|].
  apply (load_env_keeps_set_variables [None; Some env_file] credential_set
           (<[u8 "MODEL" := u8 "x"]> credential_set) (u8 "OPENAI_API_KEY")).
  - vm_compute; reflexivity.
  - vm_compute. discriminate.
Defined.

Lemma load_env_line_assigns_witness :
  load_env_line ∅ ([] ++ (u8 "OPENAI_API_KEY" ++ [61] ++ u8 "sk-new") ++ [10])
  = Ok (<[u8 "OPENAI_API_KEY" := u8 "sk-new"]> ∅).
Proof.
  apply (load_env_line_assigns ∅ [] (u8 "OPENAI_API_KEY") (u8 "sk-new") [10]).
  - repeat split; try discriminate; try (vm_compute; reflexivity);
      apply (proj1 (bool_decide_eq_false _)); vm_compute; reflexivity.
  - repeat split; try discriminate; try (vm_compute; reflexivity);
      apply (proj1 (bool_decide_eq_false _)); vm_compute; reflexivity.
  - constructor.
  - repeat constructor.
  - vm_compute. intros Hset. by apply Hset.
Defined.


Lemma listing_order_is_irrelevant_witness :
  main (default_args true)
       (mk_world (csv twin_world) (moods_file twin_world) (OPENAI_API_KEY twin_world)
                 (rev twin_files))
  = main (default_args true) twin_world.
Proof.
  apply (listing_order_is_irrelevant (default_args true) twin_world (rev twin_files)).
  - apply (bool_decide_unpack _). vm_compute. exact I.
  - apply Permutation_rev.
Defined.


End Latin1.
